(** * Olist GenAI Data Agent: the generate / execute / repair turn of [app.py]

    A shallow embedding of the helper functions and of the turn handler of
    [src/app.py], and the properties of the specification checked against it.

    Python strings are modelled as lists of characters ([list ascii], the
    UTF-8 bytes of the text).  Every character the program inspects (backtick,
    quote, space, LF, CR, the ASCII letters, the characters of the tokens it
    replaces) is a one-byte ASCII character, and no byte of a multi-byte UTF-8
    sequence is below 128, so scanning bytes and scanning code points find the
    same occurrences. *)

From Stdlib Require Import Ascii String List Arith Bool Lia.
Import ListNotations.

Local Open Scope list_scope.

(** ** Strings *)

Definition str := list ascii.

Definition lit (s : string) : str := list_ascii_of_string s.

Definition ascii_eqb (a b : ascii) : bool := Ascii.eqb a b.

(** [starts_with p s]: Python's [s.startswith(p)]. *)
Fixpoint starts_with (p s : str) : bool :=
  match p, s with
  | [], _ => true
  | _ :: _, [] => false
  | a :: p', b :: s' => ascii_eqb a b && starts_with p' s'
  end.

(** [contains p s]: Python's [p in s]. *)
Fixpoint contains (p s : str) : bool :=
  match s with
  | [] => starts_with p []
  | _ :: s' => starts_with p s || contains p s'
  end.

(** The propositional reading of [p in s]. *)
Definition occurs (p s : str) : Prop := exists a b, s = a ++ p ++ b.

(** *** Left-to-right, non-overlapping substitution

    [str.replace] and [re.sub] both scan the subject from the left; where the
    pattern matches at the current position they emit the replacement and
    resume right after the match, otherwise they copy one character and move
    on.  [matcher s] is the length of the match at the head of [s], if any.
    The counter [skip] is the number of characters of the current match that
    are still to be passed over.  Both patterns of the program only match
    non-empty text, so an empty match is treated as no match. *)
Fixpoint scan (matcher : str -> option nat) (new : str) (skip : nat) (s : str)
  : str :=
  match s with
  | [] => []
  | c :: s' =>
      match skip with
      | S k => scan matcher new k s'
      | O =>
          match matcher s with
          | Some (S m) => new ++ scan matcher new m s'
          | _ => c :: scan matcher new 0 s'
          end
      end
  end.

Definition match_literal (old : str) (s : str) : option nat :=
  if starts_with old s then Some (length old) else None.

(** [str_replace old new s]: Python's [s.replace(old, new)] for a non-empty
    [old] (every call site of the program passes a non-empty constant). *)
Definition str_replace (old new s : str) : str :=
  scan (match_literal old) new 0 s.

(** [[a-zA-Z]] *)
Definition is_letter (c : ascii) : bool :=
  let n := nat_of_ascii c in
  ((65 <=? n) && (n <=? 90)) || ((97 <=? n) && (n <=? 122)).

(** The length of the longest run of letters at the head of [s]: the greedy
    [[a-zA-Z]*]. *)
Fixpoint count_letters (s : str) : nat :=
  match s with
  | c :: s' => if is_letter c then S (count_letters s') else 0
  | [] => 0
  end.

Definition backtick : ascii := "`"%char.
Definition fence : str := [backtick; backtick; backtick].

(** The match of the regular expression [```[a-zA-Z]*] at the head of [s]. *)
Definition match_fence (s : str) : option nat :=
  if starts_with fence s then Some (3 + count_letters (skipn 3 s)) else None.

(** [re_sub_fence s]: [re.sub(r"```[a-zA-Z]*", "", s)]. *)
Definition re_sub_fence (s : str) : str := scan match_fence [] 0 s.

(** *** [str.strip(chars)] *)

Fixpoint lstrip (chars : str) (s : str) : str :=
  match s with
  | c :: s' => if existsb (ascii_eqb c) chars then lstrip chars s' else s
  | [] => []
  end.

Definition rstrip (chars : str) (s : str) : str :=
  rev (lstrip chars (rev s)).

Definition strip (chars : str) (s : str) : str :=
  rstrip chars (lstrip chars s).

Definition LF : ascii := ascii_of_nat 10.
Definition CR : ascii := ascii_of_nat 13.
Definition nl : str := [LF].

(** The argument [" \n\r`"] of the [strip] call of [clean_sql]. *)
Definition strip_chars : str := [" "%char; LF; CR; backtick].

(** ** [clean_sql] on a string argument (lines 48-50) *)
Definition clean_text (sql_text : str) : str :=
  let sql_text := re_sub_fence sql_text in
  let sql_text := str_replace fence [] sql_text in
  strip strip_chars sql_text.

(** ** Dates

    [max_date] is a pandas [Timestamp]; [max_date.date()] is a
    [datetime.date], and formatting it in an f-string gives its ISO form
    [YYYY-MM-DD] (four, two and two decimal digits, zero padded). *)

Record date := mkDate { year : nat; month : nat; day : nat }.

Record Timestamp := mkTimestamp { ts_date : date; ts_nanos_of_day : nat }.

Definition digit (n : nat) : ascii := ascii_of_nat (48 + n mod 10).

Definition isoformat (d : date) : str :=
  [digit (year d / 1000); digit (year d / 100); digit (year d / 10);
   digit (year d); "-"%char;
   digit (month d / 10); digit (month d); "-"%char;
   digit (day d / 10); digit (day d)].

(** ** JSON values, as [response.json()] returns them

    A JSON object becomes a Python [dict]; [JObj] lists its items.  A number
    keeps its literal text: the program never computes with one. *)

#[local] Set Warnings "-register-all".

Inductive json :=
| JNull
| JBool (b : bool)
| JNum (text : str)
| JStr (s : str)
| JArr (items : list json)
| JObj (items : list (str * json)).

Fixpoint str_eqb (a b : str) : bool :=
  match a, b with
  | [], [] => true
  | x :: a', y :: b' => ascii_eqb x y && str_eqb a' b'
  | _, _ => false
  end.

Fixpoint dict_get (k : str) (items : list (str * json)) : option json :=
  match items with
  | [] => None
  | (k', v) :: rest => if str_eqb k k' then Some v else dict_get k rest
  end.

(** ** Exceptions

    Every class below derives from [Exception], so an [except Exception]
    clause catches each of them.  [exn_msg] is [str(e)]. *)

Inductive exn_class :=
| ConnectionError   (* requests.post: the request could not be sent or answered *)
| JSONDecodeError   (* response.json(): the body is not JSON *)
| KeyError
| IndexError
| TypeError
| EngineError.      (* raised by con.execute(...).df() *)

Record exn := mkExn { exn_cls : exn_class; exn_msg : str }.

Inductive outcome (A : Type) :=
| Ret (a : A)
| Raise (e : exn).
Arguments Ret {A} a.
Arguments Raise {A} e.

(** [v[key]] with a string key.  Only a dict accepts one. *)
Definition getitem_key (key : str) (v : json) : outcome json :=
  match v with
  | JObj items =>
      match dict_get key items with
      | Some x => Ret x
      | None => Raise (mkExn KeyError ("'"%char :: key ++ ["'"%char]))
      end
  | JArr _ => Raise (mkExn TypeError (lit "list indices must be integers or slices, not str"))
  | JStr _ => Raise (mkExn TypeError (lit "string indices must be integers"))
  | _ => Raise (mkExn TypeError (lit "object is not subscriptable"))
  end.

(** [v[0]].  A list and a string are indexed by position; a dict read from
    JSON has string keys only, so the key [0] is never in it. *)
Definition getitem_0 (v : json) : outcome json :=
  match v with
  | JArr (x :: _) => Ret x
  | JArr [] => Raise (mkExn IndexError (lit "list index out of range"))
  | JStr (c :: _) => Ret (JStr [c])
  | JStr [] => Raise (mkExn IndexError (lit "string index out of range"))
  | JObj _ => Raise (mkExn KeyError (lit "0"))
  | _ => Raise (mkExn TypeError (lit "object is not subscriptable"))
  end.

(** ** The completion service and the engine *)

(** What [requests.post] meets: no answer at all, or an HTTP response with a
    status code and a body that parses as JSON ([Some]) or does not ([None]).
    [requests.post] itself does not raise on a non-2xx status. *)
Inductive http_outcome :=
| NetworkFailure (msg : str)
| Response (status : nat) (body : option json).

(** A result set.  A column carries its name and whether
    [select_dtypes(include="number")] selects it (the numeric dtypes, and
    also [timedelta64], which NumPy places under [np.number]). *)
Record DataFrame := mkFrame {
  columns : list (str * bool);
  rows : list (list str)
}.

(** [pd.DataFrame()] *)
Definition empty_frame : DataFrame := mkFrame [] [].

(** [df.empty]: true when either axis has length 0. *)
Definition df_empty (d : DataFrame) : bool :=
  (List.length (columns d) =? 0) || (List.length (rows d) =? 0).

(** [df.head(n)] *)
Definition df_head (n : nat) (d : DataFrame) : DataFrame :=
  mkFrame (columns d) (firstn n (rows d)).

(** [df.select_dtypes(include="number").columns] *)
Definition num_cols (d : DataFrame) : list str :=
  map fst (filter snd (columns d)).

(** The world outside the script: the remote completion endpoint, the DuckDB
    connection [con] with the table [olist] registered, pandas' CSV
    serialisation, the chart libraries and the timestamp [max_date] computed
    at start-up.  Each call may change the state of the service or of the
    engine.  [bar_chart result x y] is what [px.bar(result, x=x, y=y)]
    followed by [st.plotly_chart(fig)] does: it draws the chart ([None]) or
    raises (a column that [select_dtypes] selects need not be one the chart
    can serialise, a [timedelta64] column is not). *)
Class Backend := {
  Service : Type;
  post : Service -> str -> Service * http_outcome;
  Engine : Type;
  con_execute : Engine -> str -> Engine * (DataFrame + str);
  to_csv : DataFrame -> str;
  bar_chart : DataFrame -> str -> str -> option exn;
  max_date : Timestamp
}.

(** ** The script's state and effects *)

(** A conversation turn: the dict [{"user": ...}], to which the key
    ["summary"] is added later or never. *)
Record turn := mkTurn { user : str; summary : option json }.

(** What the script does that can be observed from outside: requests to the
    completion endpoint, queries given to the engine (with what the engine
    answered), and Streamlit calls. *)
Inductive event :=
| Post (prompt : str)
| Execute (sql : str) (result : DataFrame + str)
| StSpinner (text : str)
| StSubheader (text : str)
| StCode (code : str)
| StWarning (text : str)
| StError (text : str)
| StWrite (v : json)
| StDataframe (d : DataFrame)
| StPlotlyChart (x y : str)
| SidebarHeader (text : str)
| SidebarWrite (text : str)
| SidebarCaption (v : json).

Section Agent.

Context {B : Backend}.

Record world := mkWorld {
  history : list turn;      (* st.session_state.history *)
  service : Service;
  engine : Engine;
  trace : list event        (* oldest first *)
}.

(** A computation reads and changes the world, and returns or raises. *)
Definition M (A : Type) : Type := world -> outcome A * world.

Definition ret {A} (a : A) : M A := fun w => (Ret a, w).

Definition raise {A} (e : exn) : M A := fun w => (Raise e, w).

Definition bind {A C} (m : M A) (k : A -> M C) : M C :=
  fun w =>
    match m w with
    | (Ret a, w') => k a w'
    | (Raise e, w') => (Raise e, w')
    end.

(** [try: m  except Exception as e: h e] *)
Definition try_except {A} (m : M A) (h : exn -> M A) : M A :=
  fun w =>
    match m w with
    | (Ret a, w') => (Ret a, w')
    | (Raise e, w') => h e w'
    end.

Definition lift {A} (o : outcome A) : M A := fun w => (o, w).

Notation "x <- c1 ;; c2" := (bind c1 (fun x => c2))
  (at level 61, c1 at next level, right associativity).
Notation "c1 ;; c2" := (bind c1 (fun _ => c2))
  (at level 61, right associativity).

Definition emit (e : event) : M unit :=
  fun w => (Ret tt, mkWorld (history w) (service w) (engine w) (trace w ++ [e])).

Definition get_history : M (list turn) := fun w => (Ret (history w), w).

Definition set_history (h : list turn) : M unit :=
  fun w => (Ret tt, mkWorld h (service w) (engine w) (trace w)).

(** [history[-1]["summary"] = v] *)
Fixpoint attach_summary (v : json) (h : list turn) : outcome (list turn) :=
  match h with
  | [] => Raise (mkExn IndexError (lit "list index out of range"))
  | [t] => Ret [mkTurn (user t) (Some v)]
  | t :: h' =>
      match attach_summary v h' with
      | Ret h'' => Ret (t :: h'')
      | Raise e => Raise e
      end
  end.

(** ** [clean_sql] (lines 44-50)

    [None] gives the empty string; a string is cleaned; [re.sub] raises
    [TypeError] on any other object. *)
Definition clean_sql (sql_text : json) : outcome str :=
  match sql_text with
  | JNull => Ret []
  | JStr s => Ret (clean_text s)
  | _ => Raise (mkExn TypeError (lit "expected string or bytes-like object"))
  end.

(** ** [gemini_call] (lines 52-56)

    [requests.post] raises when the request fails; [response.json()] raises
    when the body is not JSON, whatever the status code. *)
Definition gemini_call (prompt : str) : M json :=
  fun w =>
    let (sv, r) := post (service w) prompt in
    let w1 := mkWorld (history w) sv (engine w) (trace w ++ [Post prompt]) in
    match r with
    | NetworkFailure msg => (Raise (mkExn ConnectionError msg), w1)
    | Response _ None => (Raise (mkExn JSONDecodeError (lit "Expecting value")), w1)
    | Response _ (Some j) => (Ret j, w1)
    end.

(** [res["candidates"][0]["content"]["parts"][0]["text"]] *)
Definition candidate_text (res : json) : outcome json :=
  match getitem_key (lit "candidates") res with
  | Raise e => Raise e
  | Ret v1 =>
  match getitem_0 v1 with
  | Raise e => Raise e
  | Ret v2 =>
  match getitem_key (lit "content") v2 with
  | Raise e => Raise e
  | Ret v3 =>
  match getitem_key (lit "parts") v3 with
  | Raise e => Raise e
  | Ret v4 =>
  match getitem_0 v4 with
  | Raise e => Raise e
  | Ret v5 => getitem_key (lit "text") v5
  end end end end end.

(** ** [generate_sql] (lines 58-79) *)

Definition schema : str :=
  lit "['order_id','order_status','order_purchase_timestamp','price','freight_value','product_id','product_category_name','payment_type','payment_value','customer_id','customer_state','seller_id']".

Definition generate_prompt (user_query history_text : str) : str :=
  nl ++ lit "You are a data analyst writing SQL for DuckDB (PostgreSQL-like syntax)."
  ++ nl ++ lit "Use CURRENT_DATE and INTERVAL for date arithmetic (e.g., CURRENT_DATE - INTERVAL 6 MONTH)."
  ++ nl ++ lit "Do not use STRFTIME or DATE('now')."
  ++ nl ++ lit "Work on a table called olist with columns " ++ schema ++ lit "."
  ++ nl ++ lit "User conversation so far:"
  ++ nl ++ history_text
  ++ nl ++ lit "Now write only the SQL query (no explanations) to answer:"
  ++ nl ++ lit "User: " ++ user_query
  ++ nl ++ lit "SQL:"
  ++ nl.

Definition generate_sql (user_query history_text : str) : M (option str) :=
  let prompt := generate_prompt user_query history_text in
  res <- gemini_call prompt ;;
  try_except
    (sql <- lift (candidate_text res) ;;
     sql <- lift (clean_sql sql) ;;
     ret (Some sql))
    (fun _ =>
       emit (StError (lit "Gemini could not generate SQL.")) ;;
       emit (StWrite res) ;;
       ret None).

(** ** [explain_results] (lines 81-88) *)

Definition en_dash : str := [ascii_of_nat 226; ascii_of_nat 128; ascii_of_nat 147].

Definition explain_prompt (df : DataFrame) (user_query : str) : str :=
  let csv := to_csv (df_head 10 df) in
  lit "Summarize these results in 2" ++ en_dash
  ++ lit "3 short business insights for the question: " ++ user_query
  ++ nl ++ nl ++ csv.

Definition summary_fallback : str := lit "Could not generate summary.".

Definition explain_results (df : DataFrame) (user_query : str) : M json :=
  let prompt := explain_prompt df user_query in
  res <- gemini_call prompt ;;
  try_except
    (lift (candidate_text res))
    (fun _ => ret (JStr summary_fallback)).

(** ** [fix_sql] (lines 90-105) *)

Definition CURRENT_DATE : str := lit "CURRENT_DATE".

(** [f"DATE '{max_date.date()}'"] *)
Definition date_literal : str :=
  lit "DATE '" ++ isoformat (ts_date max_date) ++ lit "'".

(** [q.replace("CURRENT_DATE", f"DATE '{max_date.date()}'")] *)
Definition date_subst (q : str) : str :=
  str_replace CURRENT_DATE date_literal q.

Definition fix_prompt (original_sql error_message : str) : str :=
  lit "The following SQL query failed in DuckDB:"
  ++ nl ++ original_sql
  ++ nl ++ lit "Error: " ++ error_message
  ++ nl ++ lit "Please correct it. Use CURRENT_DATE and INTERVAL syntax where necessary."
  ++ nl ++ lit "Only return valid SQL."
  ++ nl.

Definition fix_sql (original_sql error_message : str) : M (option str) :=
  res <- gemini_call (fix_prompt original_sql error_message) ;;
  try_except
    (fixed_sql <- lift (candidate_text res) ;;
     fixed_sql <- lift (clean_sql fixed_sql) ;;
     let fixed_sql := date_subst fixed_sql in
     ret (Some fixed_sql))
    (fun _ => ret None).

(** ** The turn handler (lines 115-175) *)

(** [con.execute(sql).df()]: a result set, or an exception that carries the
    engine's error text. *)
Definition con_exec (sql : str) : M DataFrame :=
  fun w =>
    let (en, r) := con_execute (engine w) sql in
    let w1 := mkWorld (history w) (service w) en (trace w ++ [Execute sql r]) in
    match r with
    | inl df => (Ret df, w1)
    | inr msg => (Raise (mkExn EngineError msg), w1)
    end.

(** The dict [category_map], in insertion order (the order [items()]
    iterates in). *)
Definition category_map : list (str * str) :=
  [ (lit "electronics", lit "eletronicos");
    (lit "furniture", lit "moveis_decoracao");
    (lit "fashion", lit "fashion_bolsas_e_acessorios");
    (lit "health_beauty", lit "beleza_saude");
    (lit "toys", lit "brinquedos");
    (lit "books", lit "livros_tecnicos") ].

(** [f"'{w}'"] *)
Definition quoted (w : str) : str := "'"%char :: w ++ ["'"%char].

(** The loop of lines 135-136. *)
Definition category_subst (sql_query : str) : str :=
  fold_left
    (fun q (kv : str * str) => str_replace (quoted (fst kv)) (quoted (snd kv)) q)
    category_map sql_query.

(** ["\n".join(l)] *)
Fixpoint join (sep : str) (l : list str) : str :=
  match l with
  | [] => []
  | [x] => x
  | x :: l' => x ++ sep ++ join sep l'
  end.

(** Line 117: ["\n".join([f"User: {h['user']}" for h in history[:-1]])]. *)
Definition history_text (h : list turn) : str :=
  join nl (map (fun t => lit "User: " ++ user t) (removelast h)).

(** Truth value of a string: non-empty. *)
Definition truthy (s : str) : bool :=
  match s with [] => false | _ :: _ => true end.

(** Lines 156-173: the display of the result.  The chart step stands
    outside every [try]: what it raises leaves the handler. *)
Definition show_result (result : DataFrame) (user_query : str) : M unit :=
  if negb (df_empty result) then
    emit (StDataframe (df_head 20 result)) ;;
    (match num_cols result with
     | y :: _ =>
         match columns result with
         | (x, _) :: _ =>
             match bar_chart result x y with
             | None => emit (StPlotlyChart x y)
             | Some e => raise e
             end
         | [] => raise (mkExn IndexError (lit "index 0 is out of bounds for axis 0 with size 0"))
         end
     | [] => ret tt
     end) ;;
    emit (StSpinner (lit "Summarizing insights...")) ;;
    summary <- explain_results result user_query ;;
    emit (StWrite (JStr (lit "**Insight Summary:**"))) ;;
    emit (StWrite summary) ;;
    h <- get_history ;;
    h' <- lift (attach_summary summary h) ;;
    set_history h'
  else
    emit (StWarning (lit "No data returned for this query.")).

(** Lines 138-154: the first execution and the repair. *)
Definition execute_with_repair (sql_query : str) : M DataFrame :=
  let sql_query := date_subst sql_query in
  try_except
    (con_exec sql_query)
    (fun e =>
       emit (StWarning (lit "SQL failed: " ++ exn_msg e)) ;;
       emit (StSpinner (lit "Auto-correcting SQL...")) ;;
       fixed_sql <- fix_sql sql_query (exn_msg e) ;;
       match fixed_sql with
       | Some ((_ :: _) as fixed_sql) =>
           emit (StCode fixed_sql) ;;
           try_except
             (con_exec fixed_sql)
             (fun e2 =>
                emit (StError (lit "Still invalid after correction: " ++ exn_msg e2)) ;;
                ret empty_frame)
       | _ => ret empty_frame
       end).

Definition turn_handler (run_btn : bool) (user_query : str) : M unit :=
  if run_btn && truthy user_query then
    h <- get_history ;;
    set_history (h ++ [mkTurn user_query None]) ;;
    h <- get_history ;;
    emit (StSpinner (lit "Generating SQL...")) ;;
    sql_query <- generate_sql user_query (history_text h) ;;
    match sql_query with
    | Some ((_ :: _) as sql_query) =>
        emit (StSubheader (lit "Generated SQL")) ;;
        emit (StCode sql_query) ;;
        let sql_query := category_subst sql_query in
        result <- execute_with_repair sql_query ;;
        show_result result user_query
    | _ => emit (StWarning (lit "Gemini could not generate SQL for that query."))
    end
  else ret tt.

(** Lines 179-183: the sidebar. *)
Fixpoint sidebar_turns (h : list turn) : M unit :=
  match h with
  | [] => ret tt
  | t :: h' =>
      emit (SidebarWrite (user t)) ;;
      (match summary t with
       | Some v => emit (SidebarCaption v)
       | None => ret tt
       end) ;;
      sidebar_turns h'
  end.

(** One run of the script from the input widgets on (lines 112-183).  An
    exception that leaves the handler ends the run. *)
Definition script_run (run_btn : bool) (user_query : str) : M unit :=
  turn_handler run_btn user_query ;;
  emit (SidebarHeader (lit "Conversation History")) ;;
  h <- get_history ;;
  sidebar_turns h.

End Agent.

Arguments world {B}.
Arguments M {B} A.

(** ** Queries over a trace *)

(** The queries given to the engine, in order, each with the engine's
    answer. *)
Fixpoint executed (evs : list event) : list (str * (DataFrame + str)) :=
  match evs with
  | [] => []
  | Execute sql r :: evs' => (sql, r) :: executed evs'
  | _ :: evs' => executed evs'
  end.

(** The prompts sent to the completion endpoint, in order. *)
Fixpoint posted (evs : list event) : list str :=
  match evs with
  | [] => []
  | Post p :: evs' => p :: posted evs'
  | _ :: evs' => posted evs'
  end.

(** Events of the display of a non-empty result: the table, the chart, the
    summary. *)
Definition shows_result (e : event) : bool :=
  match e with
  | StDataframe _ | StPlotlyChart _ _ | StWrite _ => true
  | _ => false
  end.

(** The events a computation adds to the trace of [w]. *)
Definition new_events {B : Backend} {A} (m : M A) (w : world) : list event :=
  skipn (List.length (trace w)) (trace (snd (m w))).

(** ** A scripted backend

    A test double: the service answers its calls with the outcomes of a
    script, in order, and so does the engine; when a script is used up the
    service is unreachable and the engine reports an error.  The chart of a
    column named [elapsed], a [timedelta64] column in the scenarios,
    fails as Streamlit's serialisation of such a column does. *)

Definition scripted_post (sv : list http_outcome) (prompt : str)
  : list http_outcome * http_outcome :=
  match sv with
  | [] => ([], NetworkFailure (lit "Connection refused"))
  | r :: sv' => (sv', r)
  end.

Definition scripted_execute (en : list (DataFrame + str)) (sql : str)
  : list (DataFrame + str) * (DataFrame + str) :=
  match en with
  | [] => ([], inr (lit "Connection Error: connection closed"))
  | r :: en' => (en', r)
  end.

Definition timedelta_error : exn :=
  mkExn TypeError (lit "Object of type timedelta is not JSON serializable").

Definition scripted_bar_chart (d : DataFrame) (x y : str) : option exn :=
  if str_eqb y (lit "elapsed") then Some timedelta_error else None.

Definition scripted : Backend := {|
  Service := list http_outcome;
  post := scripted_post;
  Engine := list (DataFrame + str);
  con_execute := scripted_execute;
  to_csv := fun d => join nl (map (join (lit ",")) (map (map fst) [columns d] ++ rows d));
  bar_chart := scripted_bar_chart;
  max_date := mkTimestamp (mkDate 2018 9 3) 0
|}.

(** The response body of a completion that carries [text]. *)
Definition completion (text : json) : json :=
  JObj [(lit "candidates",
         JArr [JObj [(lit "content",
                      JObj [(lit "parts", JArr [JObj [(lit "text", text)]])])]])].

Definition scripted_world (sv : list http_outcome) (en : list (DataFrame + str))
  : @world scripted :=
  @mkWorld scripted [] sv en [].

(** The service answers with status 200 and a completion that carries
    [text]. *)
Definition answer (text : string) : http_outcome :=
  Response 200 (Some (completion (JStr (lit text)))).

Definition sales_frame : DataFrame :=
  mkFrame [(lit "category", false); (lit "sales", true)]
          [[lit "eletronicos"; lit "1200.5"]; [lit "brinquedos"; lit "310.0"]].

Definition no_rows_frame : DataFrame :=
  mkFrame [(lit "category", false); (lit "sales", true)] [].

(** A result whose only selected column is a duration. *)
Definition elapsed_frame : DataFrame :=
  mkFrame [(lit "order_id", false); (lit "elapsed", true)]
          [[lit "e481f51cbdc54678b7cc49136f2d6af7"; lit "335 days 13:03:27"]].

(** *** Scenarios *)

Definition q_top5 : str := lit "Top 5 product categories by sales last year".

Definition binder_error : str :=
  lit "Binder Error: Referenced column sales not found in FROM clause".

(** The first query fails, the reply to the repair prompt is fenced SQL that
    names an English category and the current date, and the repaired query
    returns two rows. *)
Definition generated_sql : string :=
  "SELECT product_category_name, SUM(sales) FROM olist WHERE product_category_name = 'electronics' AND order_purchase_timestamp > CURRENT_DATE - INTERVAL 1 YEAR GROUP BY 1".

Definition repaired_sql : str :=
  lit "SELECT product_category_name, SUM(price) FROM olist WHERE product_category_name = 'electronics' AND order_purchase_timestamp > CURRENT_DATE - INTERVAL 1 YEAR GROUP BY 1".

Definition repair_reply : http_outcome :=
  Response 200
    (Some (completion (JStr (lit "```sql" ++ nl ++ repaired_sql ++ nl ++ lit "```")))).

Definition world_repaired : @world scripted :=
  scripted_world
    [answer generated_sql; repair_reply; answer "Electronics lead the sales."]
    [inr binder_error; inl sales_frame].

(** Both the first query and the repaired query fail. *)
Definition world_double_failure : @world scripted :=
  scripted_world
    [answer generated_sql; answer "SELECT sales FROM olist"]
    [inr binder_error; inr binder_error].

(** The query runs and returns no row. *)
Definition world_no_rows : @world scripted :=
  scripted_world [answer "SELECT * FROM olist WHERE price < 0"] [inl no_rows_frame].

(** The service cannot be reached. *)
Definition world_offline : @world scripted := scripted_world [] [].

(** The service answers 502 with a body that is not JSON. *)
Definition world_bad_gateway : @world scripted :=
  scripted_world [Response 502 None] [].

(** The service answers 429 with a JSON body that has no candidates. *)
Definition quota_body : json :=
  JObj [(lit "error", JObj [(lit "code", JNum (lit "429"));
                            (lit "status", JStr (lit "RESOURCE_EXHAUSTED"))])].

Definition world_quota : @world scripted :=
  scripted_world [Response 429 (Some quota_body)] [].

(** The model writes a placeholder right after the text [CURRENT_]. *)
Definition world_placeholder : @world scripted :=
  scripted_world [answer "SELECT CURRENT_CURRENT_DATE"] [inl no_rows_frame].

(** The reply is a fence mark and nothing else. *)
Definition world_blank_reply : @world scripted :=
  scripted_world [answer "```sql"] [].

(** The first query fails and the repair request is answered 429 with a
    body that has no candidates. *)
Definition world_repair_refused : @world scripted :=
  scripted_world [answer generated_sql; Response 429 (Some quota_body)]
                 [inr binder_error].

(** A query with no category token and no date placeholder. *)
Definition plain_sql : str := lit "SELECT COUNT(*) FROM olist".

(** The query runs and returns a duration column, which the chart step
    cannot draw. *)
Definition world_timedelta : @world scripted :=
  scripted_world
    [answer "SELECT order_id, CURRENT_DATE - order_purchase_timestamp AS elapsed FROM olist LIMIT 1"]
    [inl elapsed_frame].

(** ** A session: the script run once per interaction *)

Fixpoint session {B : Backend} (inputs : list (bool * str)) (w : world) : world :=
  match inputs with
  | [] => w
  | (run_btn, user_query) :: rest =>
      session rest (snd (script_run run_btn user_query w))
  end.

(** The interactions that submit a question: the button pressed and the
    text non-empty. *)
Definition submitted (inputs : list (bool * str)) : list str :=
  map snd (filter (fun i => fst i && truthy (snd i)) inputs).

(** ** Symbolic evaluation of the script *)

Ltac unfold_agent :=
  cbv beta iota zeta delta
    [turn_handler generate_sql gemini_call try_except bind ret lift emit raise
     get_history set_history execute_with_repair con_exec fix_sql show_result
     explain_results new_events].

Ltac project := cbn [fst snd history service engine trace exn_msg exn_cls andb].

(** Split on the innermost scrutinee of the goal. *)
Ltac split_run :=
  match goal with
  | H : ?x = _ |- context [match ?x with _ => _ end] => rewrite H
  | |- context [match ?x with _ => _ end] =>
      lazymatch x with
      | context [match _ with _ => _ end] => fail
      | _ => destruct x eqn:?
      end
  end.

(** ** Vocabulary of the statements *)

(** [c] is one of the characters [strip(chars)] removes. *)
Definition strippable (chars : str) (c : ascii) : bool := existsb (ascii_eqb c) chars.

(** No character of [chars] at the head of [s]. *)
Definition head_kept (chars s : str) : Prop :=
  match s with
  | [] => True
  | c :: _ => strippable chars c = false
  end.


(** A placeholder with the text [CURRENT_] right before it. *)
Definition CURRENT_CURRENT_DATE : str := lit "CURRENT_" ++ lit "CURRENT_DATE".

(** Two occurrences of the quoted word [w] that share a quote: ['w'w']. *)
Definition quoted_twice (w : str) : str := quoted w ++ w ++ ["'"%char].

(** [w] has no single quote in it. *)
Definition quote_free (w : str) : bool := negb (existsb (ascii_eqb "'"%char) w).

(** The SQL [generate_sql] and [fix_sql] draw from a response body: the
    sanitized text of the first candidate, if the body has one. *)
Definition reply_sql (j : json) : option str :=
  match candidate_text j with
  | Ret v =>
      match clean_sql v with
      | Ret s => Some s
      | Raise _ => None
      end
  | Raise _ => None
  end.

(** What [explain_results] draws from a response body. *)
Definition reply_summary (j : json) : json :=
  match candidate_text j with
  | Ret v => v
  | Raise _ => JStr summary_fallback
  end.

(** The replacements of a translation table [m], applied in order. *)
Definition subst_all (m : list (str * str)) (q : str) : str :=
  fold_left
    (fun q (kv : str * str) => str_replace (quoted (fst kv)) (quoted (snd kv)) q)
    m q.

Definition words_quote_free (m : list (str * str)) : bool :=
  forallb (fun kv => quote_free (fst kv) && quote_free (snd kv)) m.

(** [w] is none of the words [m] replaces. *)
Definition not_a_source (w : str) (m : list (str * str)) : bool :=
  forallb (fun kv => negb (str_eqb w (fst kv))) m.

(** [w] is none of the words [m] puts in. *)
Definition not_a_target (w : str) (m : list (str * str)) : bool :=
  forallb (fun kv => negb (str_eqb w (snd kv))) m.

(** The entry [(e, p)] between the entries [m1] and [m2] of a table does not
    interfere with them. *)
Definition entry_independent (m1 : list (str * str)) (e p : str)
  (m2 : list (str * str)) : bool :=
  words_quote_free (m1 ++ (e, p) :: m2)
  && not_a_source e m1 && not_a_target e m1
  && negb (str_eqb e p)
  && not_a_source p m2 && not_a_target e m2.

(** [a] is [b] with some characters deleted. *)
Inductive Subseq : str -> str -> Prop :=
| Subseq_nil : Subseq [] []
| Subseq_skip (c : ascii) (a b : str) : Subseq a b -> Subseq a (c :: b)
| Subseq_keep (c : ascii) (a b : str) : Subseq a b -> Subseq (c :: a) (c :: b).

(** What the sidebar shows for a history: every question, followed by its
    summary when it has one. *)
Definition sidebar_events (h : list turn) : list event :=
  flat_map (fun t => SidebarWrite (user t)
                     :: match summary t with
                        | Some v => [SidebarCaption v]
                        | None => []
                        end) h.



(** * Properties *)

(** ** Prefixes and occurrences *)

Lemma ascii_eqb_eq (a b : ascii) : ascii_eqb a b = true <-> a = b.
Proof. apply Ascii.eqb_eq. Qed.

Lemma ascii_eqb_refl (a : ascii) : ascii_eqb a a = true.
Proof. apply Ascii.eqb_refl. Qed.


Lemma str_eqb_eq (a b : str) : str_eqb a b = true <-> a = b.
Proof.
  revert b; induction a as [|x a IH]; intros [|y b]; simpl;
    try (split; [discriminate | discriminate]); try tauto.
  rewrite andb_true_iff, ascii_eqb_eq, IH.
  split; [intros [-> ->]; reflexivity | intros H; inversion H; auto].
Qed.

Lemma starts_with_spec (p s : str) :
  starts_with p s = true <-> exists r, s = p ++ r.
Proof.
  revert s; induction p as [|a p IH]; intros s; simpl.
  - split; [intros _; exists s; reflexivity | reflexivity].
  - destruct s as [|b s].
    + split; [discriminate | intros [r H]; discriminate].
    + rewrite andb_true_iff, ascii_eqb_eq, IH. split.
      * intros [-> [r ->]]. exists r; reflexivity.
      * intros [r H]. inversion H; subst. split; [reflexivity | exists r; reflexivity].
Qed.

Lemma starts_with_app (p r : str) : starts_with p (p ++ r) = true.
Proof. apply starts_with_spec. exists r; reflexivity. Qed.

Lemma occurs_nil (p : str) : occurs p [] -> p = [].
Proof.
  intros (a & b & H). symmetry in H.
  apply app_eq_nil in H as [_ H]. apply app_eq_nil in H as [H _]. exact H.
Qed.

Lemma occurs_cons (p : str) (c : ascii) (s : str) :
  occurs p (c :: s) <-> starts_with p (c :: s) = true \/ occurs p s.
Proof.
  split.
  - intros (a & b & H). destruct a as [|x a].
    + left. apply starts_with_spec. exists b. exact H.
    + right. inversion H; subst. exists a, b. reflexivity.
  - intros [H | (a & b & H)].
    + apply starts_with_spec in H as [r H]. exists [], r. exact H.
    + exists (c :: a), b. subst. reflexivity.
Qed.

Lemma occurs_app_r (p u s : str) : occurs p s -> occurs p (u ++ s).
Proof.
  intros (a & b & ->). exists (u ++ a), b. rewrite app_assoc. reflexivity.
Qed.

Lemma occurs_prefix (p s : str) : starts_with p s = true -> occurs p s.
Proof. intros H. apply starts_with_spec in H as [r ->]. exists [], r. reflexivity. Qed.

Lemma contains_spec (p s : str) : contains p s = true <-> occurs p s.
Proof.
  induction s as [|c s IH]; simpl.
  - split.
    + intros H. apply occurs_prefix. exact H.
    + intros H. apply occurs_nil in H. subst. reflexivity.
  - rewrite orb_true_iff, IH, occurs_cons. reflexivity.
Qed.

Lemma contains_false (p s : str) : contains p s = false <-> ~ occurs p s.
Proof.
  rewrite <- contains_spec. destruct (contains p s); split; intros; congruence.
Qed.

(** ** The scanner *)

Lemma scan_skip (f : str -> option nat) (new : str) (k : nat) (s : str) :
  scan f new k s = scan f new 0 (skipn k s).
Proof.
  revert k; induction s as [|c s IH]; intros [|k]; try reflexivity.
  simpl. apply IH.
Qed.

Lemma str_replace_nil (old new : str) : str_replace old new [] = [].
Proof. reflexivity. Qed.

Lemma str_replace_miss (old new : str) (c : ascii) (s : str) :
  starts_with old (c :: s) = false ->
  str_replace old new (c :: s) = c :: str_replace old new s.
Proof.
  intros H. unfold str_replace. simpl scan. unfold match_literal. rewrite H. reflexivity.
Qed.

Lemma scan_miss (f : str -> option nat) (new : str) (c : ascii) (s : str) :
  f (c :: s) = None -> scan f new 0 (c :: s) = c :: scan f new 0 s.
Proof. intros H. simpl. rewrite H. reflexivity. Qed.

Lemma scan_hit (f : str -> option nat) (new : str) (c : ascii) (s : str) (m : nat) :
  f (c :: s) = Some (S m) ->
  scan f new 0 (c :: s) = new ++ scan f new 0 (skipn m s).
Proof. intros H. simpl. rewrite H. f_equal. apply scan_skip. Qed.

Lemma str_replace_hit (old new s : str) :
  old <> [] ->
  str_replace old new (old ++ s) = new ++ str_replace old new s.
Proof.
  intros Hne. destruct old as [|o old]; [congruence|].
  unfold str_replace. change ((o :: old) ++ s) with (o :: (old ++ s)).
  rewrite (scan_hit _ _ _ _ (List.length old)).
  - rewrite skipn_app, Nat.sub_diag, skipn_all. reflexivity.
  - unfold match_literal. change (o :: old ++ s) with ((o :: old) ++ s).
    rewrite starts_with_app. reflexivity.
Qed.

(** Induction along the scan of [str_replace old]. *)
Lemma str_replace_ind (old : str) (Hne : old <> []) (P : str -> Prop) :
  P [] ->
  (forall s, P s -> P (old ++ s)) ->
  (forall c s, starts_with old (c :: s) = false -> P s -> P (c :: s)) ->
  forall s, P s.
Proof.
  intros Hnil Hhit Hmiss s.
  remember (List.length s) as n eqn:Hn. revert s Hn.
  induction n as [n IH] using lt_wf_ind. intros s Hn.
  destruct s as [|c s]; [exact Hnil|].
  destruct (starts_with old (c :: s)) eqn:Hs.
  - apply starts_with_spec in Hs as [r Hr]. rewrite Hr. apply Hhit.
    apply (IH (List.length r)); [|reflexivity].
    subst n. rewrite Hr, length_app.
    destruct old; [congruence | simpl; lia].
  - apply Hmiss; [exact Hs|]. apply (IH (List.length s)); [subst n; simpl; lia | reflexivity].
Qed.

Lemma str_replace_absent (old new s : str) :
  old <> [] -> ~ occurs old s -> str_replace old new s = s.
Proof.
  intros Hne. induction s as [|c s IH]; intros H; [reflexivity|].
  rewrite occurs_cons in H.
  destruct (starts_with old (c :: s)) eqn:Hs; [exfalso; auto|].
  rewrite str_replace_miss by exact Hs. f_equal. apply IH. tauto.
Qed.

Lemma str_replace_occurs_new (old new s : str) :
  old <> [] -> occurs old s -> occurs new (str_replace old new s).
Proof.
  intros Hne. induction s as [|s IH|c s Hs IH] using (str_replace_ind old Hne).
  - intros H. apply occurs_nil in H. congruence.
  - intros _. rewrite str_replace_hit by exact Hne.
    exists [], (str_replace old new s). reflexivity.
  - intros H. apply occurs_cons in H as [H | H]; [congruence|].
    rewrite str_replace_miss by exact Hs.
    apply (occurs_app_r new [c]). auto.
Qed.

(** ** Removal of code fences *)

Lemma re_sub_fence_miss (c : ascii) (s : str) :
  starts_with fence (c :: s) = false ->
  re_sub_fence (c :: s) = c :: re_sub_fence s.
Proof.
  intros H. unfold re_sub_fence. apply scan_miss. unfold match_fence. rewrite H. reflexivity.
Qed.

Lemma re_sub_fence_hit (s : str) :
  re_sub_fence (fence ++ s) = re_sub_fence (skipn (count_letters s) s).
Proof.
  unfold re_sub_fence.
  change (fence ++ s) with (backtick :: (backtick :: backtick :: s)).
  rewrite (scan_hit _ _ _ _ (2 + count_letters s)); reflexivity.
Qed.

Lemma re_sub_fence_ind (P : str -> Prop) :
  P [] ->
  (forall s, P (skipn (count_letters s) s) -> P (fence ++ s)) ->
  (forall c s, starts_with fence (c :: s) = false -> P s -> P (c :: s)) ->
  forall s, P s.
Proof.
  intros Hnil Hhit Hmiss s.
  remember (List.length s) as n eqn:Hn. revert s Hn.
  induction n as [n IH] using lt_wf_ind. intros s Hn.
  destruct s as [|c s]; [exact Hnil|].
  destruct (starts_with fence (c :: s)) eqn:Hs.
  - apply starts_with_spec in Hs as [r Hr]. rewrite Hr. apply Hhit.
    apply (IH (List.length (skipn (count_letters r) r))); [|reflexivity].
    subst n. rewrite Hr, length_skipn, length_app. simpl. lia.
  - apply Hmiss; [exact Hs|]. apply (IH (List.length s)); [subst n; simpl; lia | reflexivity].
Qed.

(** Where the output starts with a backtick, so does the input, and that
    backtick was either copied or opens a fence. *)
Lemma re_sub_fence_head (s r : str) :
  re_sub_fence s = backtick :: r ->
  exists s', s = backtick :: s' /\
             (starts_with fence s = true \/ re_sub_fence s' = r).
Proof.
  destruct s as [|c s]; [discriminate|].
  destruct (starts_with fence (c :: s)) eqn:Hs.
  - intros _. pose proof Hs as Hs'. apply starts_with_spec in Hs' as [t Ht].
    inversion Ht; subst. eexists. split; [reflexivity | left; reflexivity].
  - rewrite re_sub_fence_miss by exact Hs. intros H. inversion H; subst.
    exists s. split; [reflexivity | right; reflexivity].
Qed.

Lemma starts_with_fence_cons (s : str) :
  starts_with fence s = true -> starts_with fence (backtick :: s) = true.
Proof.
  intros H. apply starts_with_spec in H as [r ->]. reflexivity.
Qed.

Lemma re_sub_fence_no_fence (s : str) : ~ occurs fence (re_sub_fence s).
Proof.
  induction s as [|s IH|c s Hs IH] using re_sub_fence_ind.
  - intros H. apply occurs_nil in H. discriminate.
  - rewrite re_sub_fence_hit. exact IH.
  - rewrite re_sub_fence_miss by exact Hs. rewrite occurs_cons.
    intros [H | H]; [|exact (IH H)].
    apply starts_with_spec in H as [r Hr]. inversion Hr as [[Hc Hr']]. subst c.
    apply re_sub_fence_head in Hr' as (s1 & -> & [Hf | H1]).
    + apply starts_with_fence_cons in Hf. congruence.
    + apply re_sub_fence_head in H1 as (s2 & -> & _). discriminate Hs.
Qed.

Lemma re_sub_fence_absent (s : str) : ~ occurs fence s -> re_sub_fence s = s.
Proof.
  induction s as [|c s IH]; intros H; [reflexivity|].
  rewrite occurs_cons in H.
  destruct (starts_with fence (c :: s)) eqn:Hs; [exfalso; auto|].
  rewrite re_sub_fence_miss by exact Hs. f_equal. apply IH. tauto.
Qed.

(** ** [strip] *)

Lemma lstrip_suffix (chars s : str) :
  exists a, s = a ++ lstrip chars s /\ forallb (strippable chars) a = true.
Proof.
  induction s as [|c s (a & IH & Ha)]; simpl.
  - exists []. split; reflexivity.
  - fold (strippable chars c). destruct (strippable chars c) eqn:Hc.
    + exists (c :: a). simpl. rewrite Hc, Ha. split; [f_equal; exact IH | reflexivity].
    + exists []. split; reflexivity.
Qed.

Lemma lstrip_head_kept (chars s : str) : head_kept chars (lstrip chars s).
Proof.
  induction s as [|c s IH]; simpl; [exact I|].
  fold (strippable chars c). destruct (strippable chars c) eqn:Hc; [exact IH | exact Hc].
Qed.

Lemma lstrip_fixed (chars s : str) : head_kept chars s -> lstrip chars s = s.
Proof.
  destruct s as [|c s]; simpl; [reflexivity|].
  fold (strippable chars c). intros ->. reflexivity.
Qed.

Lemma lstrip_snoc_kept (chars x : str) (c : ascii) :
  strippable chars c = false -> exists u, lstrip chars (x ++ [c]) = u ++ [c].
Proof.
  intros Hc. induction x as [|d x [u IH]]; simpl.
  - fold (strippable chars c). rewrite Hc. exists []. reflexivity.
  - fold (strippable chars d). destruct (strippable chars d).
    + exists u. exact IH.
    + exists (d :: x). reflexivity.
Qed.

Lemma rstrip_head_kept (chars s : str) :
  head_kept chars s -> head_kept chars (rstrip chars s).
Proof.
  destruct s as [|c s]; [intros _; exact I|]. simpl. intros Hc.
  unfold rstrip. simpl rev.
  destruct (lstrip_snoc_kept chars (rev s) c Hc) as [u ->].
  rewrite rev_app_distr. simpl. exact Hc.
Qed.

Lemma rstrip_prefix (chars s : str) :
  exists b, s = rstrip chars s ++ b /\ forallb (strippable chars) b = true.
Proof.
  destruct (lstrip_suffix chars (rev s)) as (a & Ha & Hall).
  exists (rev a). split.
  - unfold rstrip. rewrite <- rev_app_distr, <- Ha, rev_involutive. reflexivity.
  - rewrite forallb_forall in *. intros x Hx. apply Hall. apply in_rev. exact Hx.
Qed.

Lemma rstrip_tail_kept (chars s : str) : head_kept chars (rev (rstrip chars s)).
Proof. unfold rstrip. rewrite rev_involutive. apply lstrip_head_kept. Qed.

Lemma rstrip_fixed (chars s : str) :
  head_kept chars (rev s) -> rstrip chars s = s.
Proof. intros H. unfold rstrip. rewrite lstrip_fixed by exact H. apply rev_involutive. Qed.

Lemma strip_infix (chars s : str) :
  exists a b, s = a ++ strip chars s ++ b
              /\ forallb (strippable chars) a = true
              /\ forallb (strippable chars) b = true.
Proof.
  destruct (lstrip_suffix chars s) as (a & Ha & Halla).
  destruct (rstrip_prefix chars (lstrip chars s)) as (b & Hb & Hallb).
  exists a, b. unfold strip. rewrite <- Hb. auto.
Qed.

Lemma strip_head_kept (chars s : str) : head_kept chars (strip chars s).
Proof. apply rstrip_head_kept, lstrip_head_kept. Qed.

Lemma strip_tail_kept (chars s : str) : head_kept chars (rev (strip chars s)).
Proof. apply rstrip_tail_kept. Qed.

Lemma strip_idempotent (chars s : str) :
  strip chars (strip chars s) = strip chars s.
Proof.
  unfold strip at 1.
  rewrite (lstrip_fixed chars (strip chars s)) by apply strip_head_kept.
  apply rstrip_fixed, strip_tail_kept.
Qed.

Lemma strip_no_new_occurrence (chars p s : str) :
  ~ occurs p s -> ~ occurs p (strip chars s).
Proof.
  intros H (a & b & Hab). apply H.
  destruct (strip_infix chars s) as (x & y & Hs & _).
  exists (x ++ a), (b ++ y). rewrite Hs, Hab. repeat rewrite <- app_assoc. reflexivity.
Qed.

(** ** [clean_sql] *)

Lemma fence_nonempty : fence <> [].
Proof. discriminate. Qed.

(** The second step of [clean_sql], [replace("```", "")], finds nothing left
    to remove. *)
Lemma clean_text_eq (s : str) : clean_text s = strip strip_chars (re_sub_fence s).
Proof.
  unfold clean_text.
  rewrite str_replace_absent; [reflexivity | exact fence_nonempty | apply re_sub_fence_no_fence].
Qed.

Lemma clean_text_no_fence (s : str) : ~ occurs fence (clean_text s).
Proof.
  rewrite clean_text_eq. apply strip_no_new_occurrence, re_sub_fence_no_fence.
Qed.

Lemma clean_text_idempotent (s : str) : clean_text (clean_text s) = clean_text s.
Proof.
  rewrite (clean_text_eq (clean_text s)).
  rewrite re_sub_fence_absent by apply clean_text_no_fence.
  rewrite clean_text_eq. apply strip_idempotent.
Qed.

(** [clean_sql] returns for every string, and cleaning its result again
    changes nothing. *)
Lemma clean_sql_str (s : str) : clean_sql (JStr s) = Ret (clean_text s).
Proof. reflexivity. Qed.

(** ** The date placeholder *)

Lemma nat_of_digit (n : nat) : nat_of_ascii (digit n) = 48 + n mod 10.
Proof.
  unfold digit. apply nat_ascii_embedding.
  pose proof (Nat.mod_upper_bound n 10). lia.
Qed.

Lemma digit_not_letter (n : nat) (c : ascii) :
  58 <= nat_of_ascii c -> digit n <> c.
Proof.
  intros Hc H. rewrite <- H, nat_of_digit in Hc.
  pose proof (Nat.mod_upper_bound n 10). lia.
Qed.

Lemma isoformat_no_letter (d : date) (c : ascii) :
  58 <= nat_of_ascii c -> ~ In c (isoformat d).
Proof.
  intros Hc H. unfold isoformat in H. simpl in H.
  repeat (destruct H as [H | H];
          [first [ exact (digit_not_letter _ _ Hc H)
                 | subst c; vm_compute in Hc; lia ] |]).
  exact H.
Qed.

Lemma cons_inv (x y : ascii) (l l' : str) : x :: l = y :: l' -> x = y /\ l = l'.
Proof. intros H. inversion H. split; reflexivity. Qed.

Lemma app_occurrence_head (u v a x : str) (c : ascii) :
  u ++ v = a ++ c :: x ->
  In c u \/ exists a', a = u ++ a' /\ v = a' ++ c :: x.
Proof.
  revert a; induction u as [|y u IH]; intros a H.
  - right. exists a. split; [reflexivity | exact H].
  - destruct a as [|z a]; simpl in H; inversion H; subst.
    + left. left. reflexivity.
    + destruct (IH a H2) as [Hin | (a' & -> & ->)].
      * left. right. exact Hin.
      * right. exists a'. split; reflexivity.
Qed.

(** A prefix of the output that avoids the first character of the
    replacement was copied from the input. *)
Lemma str_replace_prefix_back (old new' : str) (d : ascii) (w : str) :
  old <> [] -> ~ In d w ->
  forall s, starts_with w (str_replace old (d :: new') s) = true ->
            exists r, s = w ++ r
                      /\ str_replace old (d :: new') s = w ++ str_replace old (d :: new') r.
Proof.
  intros Hne. induction w as [|x w IH]; intros Hd s H.
  - exists s. split; reflexivity.
  - destruct s as [|c s]; [discriminate|].
    destruct (starts_with old (c :: s)) eqn:Hs.
    + apply starts_with_spec in Hs as [t Ht]. rewrite Ht, str_replace_hit in H by exact Hne.
      simpl in H. apply andb_true_iff in H as [H _]. apply ascii_eqb_eq in H.
      exfalso. apply Hd. left. exact H.
    + rewrite str_replace_miss in * by exact Hs.
      simpl in H. apply andb_true_iff in H as [Hx H]. apply ascii_eqb_eq in Hx. subst c.
      destruct (IH (fun Hin => Hd (or_intror Hin)) s H) as (r & -> & Hr).
      exists r. split; [reflexivity | simpl; f_equal; exact Hr].
Qed.

Lemma starts_with_app_inv (w v r : str) :
  starts_with (w ++ v) (w ++ r) = starts_with v r.
Proof.
  induction w as [|x w IH]; simpl; [reflexivity|].
  rewrite ascii_eqb_refl. exact IH.
Qed.

Lemma starts_with_app_l (w v t : str) :
  starts_with (w ++ v) t = true -> starts_with w t = true.
Proof.
  intros H. apply starts_with_spec in H as [r ->]. rewrite <- app_assoc. apply starts_with_app.
Qed.

Section DateSubstitution.

Context {B : Backend}.

Lemma CURRENT_DATE_nonempty : CURRENT_DATE <> [].
Proof. discriminate. Qed.

Lemma date_literal_no_C : ~ In "C"%char date_literal.
Proof.
  unfold date_literal. intros H.
  apply in_app_or in H as [H | H].
  - simpl in H. intuition discriminate.
  - apply in_app_or in H as [H | H].
    + revert H. apply isoformat_no_letter. vm_compute. lia.
    + simpl in H. intuition discriminate.
Qed.

Lemma date_subst_hit (s : str) :
  date_subst (CURRENT_DATE ++ s) = date_literal ++ date_subst s.
Proof. apply str_replace_hit, CURRENT_DATE_nonempty. Qed.

Lemma date_subst_miss (c : ascii) (s : str) :
  starts_with CURRENT_DATE (c :: s) = false ->
  date_subst (c :: s) = c :: date_subst s.
Proof. apply str_replace_miss. Qed.

(** A placeholder at the head of the output either was at the head of the
    input, or is the input's [CURRENT_] glued to the [DATE] of a literal. *)
Lemma date_subst_head_copied (c : ascii) (s : str) :
  starts_with CURRENT_DATE (c :: date_subst s) = true ->
  starts_with CURRENT_DATE (c :: s) = true
  \/ starts_with CURRENT_CURRENT_DATE (c :: s) = true.
Proof.
  intros H. apply starts_with_spec in H as [t Ht].
  change CURRENT_DATE with ("C"%char :: (lit "URRENT_" ++ lit "DATE")) in Ht.
  inversion Ht as [[Hc H1]]. clear Ht.
  unfold date_subst in *.
  change date_literal
    with ("D"%char :: (lit "ATE '" ++ isoformat (ts_date max_date) ++ lit "'")) in *.
  set (tl := lit "ATE '" ++ isoformat (ts_date max_date) ++ lit "'") in *.
  assert (Hu : starts_with (lit "URRENT_") (str_replace CURRENT_DATE ("D"%char :: tl) s) = true).
  { rewrite H1. reflexivity. }
  apply str_replace_prefix_back in Hu as (r & -> & Hr);
    [| exact CURRENT_DATE_nonempty | simpl; intuition discriminate].
  rewrite Hr in H1. apply (app_inv_head (lit "URRENT_") _ (lit "DATE" ++ t)) in H1.
  destruct r as [|d r]; [discriminate|].
  destruct (starts_with CURRENT_DATE (d :: r)) eqn:Hd.
  - right. apply starts_with_spec in Hd as [t' ->].
    apply starts_with_spec. exists t'. reflexivity.
  - left. rewrite str_replace_miss in H1 by exact Hd.
    change (lit "DATE" ++ t) with ("D"%char :: (lit "ATE" ++ t)) in H1.
    inversion H1 as [[Hd' H2]]. clear H1.
    assert (Ha : starts_with (lit "ATE") (str_replace CURRENT_DATE ("D"%char :: tl) r) = true).
    { rewrite H2. reflexivity. }
    apply str_replace_prefix_back in Ha as (r' & -> & _);
      [| exact CURRENT_DATE_nonempty | simpl; intuition discriminate].
    apply starts_with_spec. exists r'. reflexivity.
Qed.

Lemma date_subst_no_residue (s : str) :
  ~ occurs CURRENT_CURRENT_DATE s -> ~ occurs CURRENT_DATE (date_subst s).
Proof.
  induction s as [|s IH|c s Hs IH] using (str_replace_ind CURRENT_DATE CURRENT_DATE_nonempty).
  - intros _ H. apply occurs_nil in H. discriminate.
  - intros Hn (a & b & Hab). rewrite date_subst_hit in Hab.
    change (CURRENT_DATE ++ b) with ("C"%char :: (lit "URRENT_DATE" ++ b)) in Hab.
    apply app_occurrence_head in Hab as [Hin | (a' & _ & Hab)].
    + exact (date_literal_no_C Hin).
    + apply IH.
      * intros Ho. apply Hn. apply occurs_app_r. exact Ho.
      * exists a', b. exact Hab.
  - intros Hn. rewrite date_subst_miss by exact Hs. rewrite occurs_cons.
    intros [H | H].
    + apply date_subst_head_copied in H as [H | H]; [congruence|].
      apply Hn. apply occurs_prefix. exact H.
    + revert H. apply IH. intros Ho. apply Hn. apply (occurs_app_r _ [c]). exact Ho.
Qed.

(** The scan replaces the first placeholder where it stands and goes on
    behind it. *)
Lemma date_subst_first (a b : str) :
  ~ occurs CURRENT_DATE a ->
  date_subst (a ++ CURRENT_DATE ++ b) = a ++ date_literal ++ date_subst b.
Proof.
  induction a as [|c a IH]; intros Ha.
  - apply date_subst_hit.
  - change ((c :: a) ++ CURRENT_DATE ++ b) with (c :: (a ++ CURRENT_DATE ++ b)).
    rewrite date_subst_miss.
    + change ((c :: a) ++ date_literal ++ date_subst b)
        with (c :: (a ++ date_literal ++ date_subst b)).
      f_equal. apply IH. intros Ho. apply Ha. apply (occurs_app_r _ [c]). exact Ho.
    + destruct (starts_with CURRENT_DATE (c :: a ++ CURRENT_DATE ++ b)) eqn:Hs; [|reflexivity].
      exfalso. apply starts_with_spec in Hs as [t Ht].
      change (CURRENT_DATE ++ t) with ("C"%char :: (lit "URRENT_DATE" ++ t)) in Ht.
      inversion Ht as [[Hc H1]]. clear Ht. subst c.
      change (CURRENT_DATE ++ b) with ("C"%char :: (lit "URRENT_DATE" ++ b)) in H1.
      symmetry in H1.
      apply (app_occurrence_head (lit "URRENT_DATE") t) in H1 as [Hin | (a' & -> & _)].
      * simpl in Hin. intuition discriminate.
      * apply Ha. exists [], a'. reflexivity.
Qed.

End DateSubstitution.

(** ** Quoted words

    The category substitution replaces a quoted word by a quoted word.  A
    quoted word is delimited by quotes and has none inside, so two of them
    in a text are equal, apart, or share exactly one quote. *)

Lemma quote_free_spec (w : str) : quote_free w = true <-> ~ In "'"%char w.
Proof.
  unfold quote_free. rewrite negb_true_iff. split.
  - intros H Hin. assert (existsb (ascii_eqb "'"%char) w = true); [|congruence].
    apply existsb_exists. exists "'"%char. split; [exact Hin | apply ascii_eqb_refl].
  - intros H. destruct (existsb (ascii_eqb "'"%char) w) eqn:E; [|reflexivity].
    apply existsb_exists in E as (x & Hx & Hq). apply ascii_eqb_eq in Hq. subst x. tauto.
Qed.

Lemma quoted_nonempty (w : str) : quoted w <> [].
Proof. discriminate. Qed.

Lemma quoted_app (w s : str) : quoted w ++ s = "'"%char :: w ++ "'"%char :: s.
Proof. unfold quoted. simpl. try rewrite <- !app_assoc. reflexivity. Qed.

Lemma quoted_twice_app (w s : str) :
  quoted_twice w ++ s = "'"%char :: w ++ "'"%char :: w ++ "'"%char :: s.
Proof.
  unfold quoted_twice. rewrite <- !app_assoc, quoted_app. reflexivity.
Qed.

(** The first quote of a text is where it is. *)
Lemma first_quote_split (a x u v : str) :
  quote_free a = true ->
  a ++ "'"%char :: x = u ++ "'"%char :: v ->
  (u = a /\ v = x) \/ exists u', u = a ++ "'"%char :: u' /\ x = u' ++ "'"%char :: v.
Proof.
  intros Ha H. apply quote_free_spec in Ha.
  apply app_occurrence_head in H as [Hin | (a' & -> & H)]; [tauto|].
  destruct a' as [|y a'].
  - left. inversion H. rewrite app_nil_r. split; reflexivity.
  - right. inversion H. exists a'. split; reflexivity.
Qed.

Lemma quoted_segment_unique (a c x y : str) :
  quote_free a = true -> quote_free c = true ->
  a ++ "'"%char :: x = c ++ "'"%char :: y -> a = c /\ x = y.
Proof.
  intros Ha Hc H.
  apply first_quote_split in H as [[-> ->] | (u' & -> & _)]; [split; reflexivity | | exact Ha].
  apply quote_free_spec in Hc. exfalso. apply Hc. apply in_or_app. right. left. reflexivity.
Qed.

(** An occurrence of ['c'] in a text that starts with ['a']: the two
    coincide, or ['c'] starts at the closing quote of ['a'], or behind it. *)
Lemma quoted_occurrence (a c s pre post : str) :
  quote_free a = true -> quote_free c = true ->
  quoted a ++ s = pre ++ quoted c ++ post ->
  (pre = [] /\ c = a /\ post = s)
  \/ (pre = "'"%char :: a /\ s = c ++ "'"%char :: post)
  \/ (exists pre', pre = quoted a ++ pre' /\ s = pre' ++ quoted c ++ post).
Proof.
  intros Ha Hc H. rewrite !quoted_app in H.
  destruct pre as [|y pre]; simpl in H; apply cons_inv in H as [Hy H1].
  - left. apply quoted_segment_unique in H1 as [-> ->]; auto.
  - subst y. right. apply first_quote_split in H1 as [[-> <-] | (u' & -> & ->)]; [| | exact Ha].
    + left. split; reflexivity.
    + right. exists u'. rewrite !quoted_app. split; reflexivity.
Qed.

Section QuotedReplace.

Variables a b : str.
Hypothesis Ha : quote_free a = true.
Hypothesis Hb : quote_free b = true.

Local Abbreviation repl := (str_replace (quoted a) (quoted b)).

Lemma repl_hit (s : str) : repl (quoted a ++ s) = quoted b ++ repl s.
Proof. apply str_replace_hit, quoted_nonempty. Qed.

(** A quote at the head of the output was a quote at the head of the input;
    behind it the scan either went on, or had replaced ['a'] by ['b']. *)
Lemma repl_quote_step (r t : str) :
  repl r = "'"%char :: t ->
  exists r', r = "'"%char :: r'
    /\ (t = repl r'
        \/ exists r'', r' = a ++ "'"%char :: r'' /\ t = b ++ "'"%char :: repl r'').
Proof.
  destruct r as [|y r]; [discriminate|].
  destruct (starts_with (quoted a) (y :: r)) eqn:Hs.
  - apply starts_with_spec in Hs as [r'' Hr]. rewrite Hr, repl_hit, !quoted_app.
    intros H. inversion H. rewrite quoted_app in Hr. inversion Hr. subst.
    eexists. split; [reflexivity|]. right. exists r''. split; reflexivity.
  - rewrite str_replace_miss by exact Hs. intros H. inversion H. subst.
    exists r. split; [reflexivity | left; reflexivity].
Qed.

(** Forwards: a segment [c'] at the head of the input is copied. *)
Lemma repl_segment_fwd (c z : str) :
  quote_free c = true ->
  exists z', repl (c ++ "'"%char :: z) = c ++ "'"%char :: z'.
Proof.
  intros Hc. induction c as [|x c IH]; simpl.
  - destruct (starts_with (quoted a) ("'"%char :: z)) eqn:Hs.
    + apply starts_with_spec in Hs as [r ->]. rewrite repl_hit, quoted_app. eauto.
    + rewrite str_replace_miss by exact Hs. eauto.
  - unfold quote_free in Hc. simpl in Hc.
    rewrite negb_orb, andb_true_iff in Hc. destruct Hc as [Hx Hc].
    destruct (IH Hc) as [z' Hz]. exists z'.
    rewrite str_replace_miss.
    + rewrite Hz. reflexivity.
    + simpl. rewrite negb_true_iff in Hx. rewrite Hx. reflexivity.
Qed.

(** Backwards: a segment [c'] at the head of the output was at the head of
    the input. *)
Lemma repl_segment_back (c s z' : str) :
  quote_free c = true ->
  repl s = c ++ "'"%char :: z' ->
  exists r, s = c ++ "'"%char :: r
    /\ (z' = repl r
        \/ exists r'', r = a ++ "'"%char :: r'' /\ z' = b ++ "'"%char :: repl r'').
Proof.
  intros Hc H.
  assert (Hp : starts_with c (repl s) = true) by (rewrite H; apply starts_with_app).
  unfold quoted at 2 in Hp. simpl in Hp.
  apply str_replace_prefix_back in Hp as (r & -> & Hr);
    [| apply quoted_nonempty | apply quote_free_spec; exact Hc].
  unfold quoted at 2 in H. simpl in H. rewrite Hr in H. apply app_inv_head in H.
  apply repl_quote_step in H as (r' & -> & H). exists r'. split; [reflexivity | exact H].
Qed.

Lemma repl_segment2_back (c s z' : str) :
  quote_free c = true -> c <> b ->
  repl s = c ++ "'"%char :: c ++ "'"%char :: z' ->
  exists r, s = c ++ "'"%char :: c ++ "'"%char :: r.
Proof.
  intros Hc Hcb H.
  apply repl_segment_back in H as (r & -> & [H | (r'' & -> & H)]); [| | exact Hc].
  - symmetry in H. apply repl_segment_back in H as (r' & -> & _); [|exact Hc].
    exists r'. reflexivity.
  - apply quoted_segment_unique in H as [H _]; [congruence | exact Hc | exact Hb].
Qed.

(** ['c'] stays where ['a'] is replaced, for [c] other than [a]. *)
Lemma repl_keeps (c s : str) :
  quote_free c = true -> c <> a ->
  occurs (quoted c) s -> occurs (quoted c) (repl s).
Proof.
  intros Hc Hca.
  induction s as [|s IH|c0 s Hs IH] using (str_replace_ind (quoted a) (quoted_nonempty a)).
  - intros H. apply occurs_nil in H. discriminate.
  - intros (pre & post & H). rewrite repl_hit.
    apply quoted_occurrence in H as [(_ & H & _) | [(_ & H) | (pre' & _ & H)]];
      [congruence | | | exact Ha | exact Hc].
    + destruct (repl_segment_fwd c post Hc) as [z' Hz]. rewrite H, Hz.
      exists ("'"%char :: b), z'. rewrite !quoted_app. simpl. try rewrite <- !app_assoc. reflexivity.
    + apply occurs_app_r. apply IH. exists pre', post. exact H.
  - intros H. apply occurs_cons in H as [H | H]; rewrite str_replace_miss by exact Hs.
    + apply starts_with_spec in H as [post H]. rewrite quoted_app in H. inversion H. subst.
      destruct (repl_segment_fwd c post Hc) as [z' Hz]. rewrite Hz.
      exists [], z'. rewrite quoted_app. reflexivity.
    + apply (occurs_app_r _ [c0]). apply IH. exact H.
Qed.

(** No ['c'] appears where ['a'] is replaced by ['b'], for [c] other than
    [b]. *)
Lemma repl_no_new (c s : str) :
  quote_free c = true -> c <> b ->
  occurs (quoted c) (repl s) -> occurs (quoted c) s.
Proof.
  intros Hc Hcb.
  induction s as [|s IH|c0 s Hs IH] using (str_replace_ind (quoted a) (quoted_nonempty a)).
  - intros H. exact H.
  - rewrite repl_hit. intros (pre & post & H).
    apply quoted_occurrence in H as [(_ & H & _) | [(_ & H) | (pre' & _ & H)]];
      [congruence | | | exact Hb | exact Hc].
    + apply repl_segment_back in H as (r & -> & _); [|exact Hc].
      exists ("'"%char :: a), r. rewrite !quoted_app. simpl. try rewrite <- !app_assoc. reflexivity.
    + apply occurs_app_r. apply IH. exists pre', post. exact H.
  - rewrite str_replace_miss by exact Hs. intros H. apply occurs_cons in H as [H | H].
    + apply starts_with_spec in H as [post H]. rewrite quoted_app in H. apply cons_inv in H as [H0 H1]. subst c0.
      apply repl_segment_back in H1 as (r & -> & _); [|exact Hc].
      exists [], r. rewrite quoted_app. reflexivity.
    + apply (occurs_app_r _ [c0]). apply IH. exact H.
Qed.

(** No ['c'c'] appears either. *)
Lemma repl_no_new_twice (c s : str) :
  quote_free c = true -> c <> b ->
  occurs (quoted_twice c) (repl s) -> occurs (quoted_twice c) s.
Proof.
  intros Hc Hcb.
  induction s as [|s IH|c0 s Hs IH] using (str_replace_ind (quoted a) (quoted_nonempty a)).
  - intros H. exact H.
  - rewrite repl_hit. intros (pre & post & H).
    rewrite quoted_twice_app, <- quoted_app in H.
    apply quoted_occurrence in H as [(_ & H & _) | [(_ & H) | (pre' & _ & H)]];
      [congruence | | | exact Hb | exact Hc].
    + apply repl_segment2_back in H as (r & ->); [| exact Hc | exact Hcb].
      exists ("'"%char :: a), r. rewrite quoted_twice_app, quoted_app. reflexivity.
    + apply occurs_app_r. apply IH. exists pre', post.
      rewrite quoted_twice_app, <- quoted_app. exact H.
  - rewrite str_replace_miss by exact Hs. intros H. apply occurs_cons in H as [H | H].
    + apply starts_with_spec in H as [post H]. rewrite quoted_twice_app in H.
      apply cons_inv in H as [H0 H1]. subst c0.
      apply repl_segment2_back in H1 as (r & ->); [| exact Hc | exact Hcb].
      exists [], r. rewrite quoted_twice_app. reflexivity.
    + apply (occurs_app_r _ [c0]). apply IH. exact H.
Qed.

(** ['a'] is gone once replaced, unless the text had ['a'a']. *)
Lemma repl_removes (s : str) :
  a <> b ->
  occurs (quoted a) (repl s) -> occurs (quoted_twice a) s.
Proof.
  intros Hab.
  induction s as [|s IH|c0 s Hs IH] using (str_replace_ind (quoted a) (quoted_nonempty a)).
  - intros H. apply occurs_nil in H. discriminate.
  - rewrite repl_hit. intros (pre & post & H).
    apply quoted_occurrence in H as [(_ & H & _) | [(_ & H) | (pre' & _ & H)]];
      [congruence | | | exact Hb | exact Ha].
    + apply repl_segment_back in H as (r & -> & _); [|exact Ha].
      exists [], r. rewrite quoted_twice_app, quoted_app. reflexivity.
    + apply occurs_app_r. apply IH. exists pre', post. exact H.
  - rewrite str_replace_miss by exact Hs. intros H. apply occurs_cons in H as [H | H].
    + exfalso. apply starts_with_spec in H as [post H]. rewrite quoted_app in H.
      apply cons_inv in H as [H0 H1]. subst c0.
      apply repl_segment_back in H1 as (r & -> & _); [|exact Ha].
      rewrite <- quoted_app, starts_with_app in Hs. discriminate.
    + apply (occurs_app_r _ [c0]). apply IH. exact H.
Qed.

End QuotedReplace.

(** ** The translation table *)

Lemma str_eqb_false (a b : str) : negb (str_eqb a b) = true -> a <> b.
Proof.
  rewrite negb_true_iff. intros H E. apply str_eqb_eq in E. congruence.
Qed.

Lemma subst_all_cons (a b : str) (m : list (str * str)) (s : str) :
  subst_all ((a, b) :: m) s = subst_all m (str_replace (quoted a) (quoted b) s).
Proof. reflexivity. Qed.

Lemma subst_all_app (m1 m2 : list (str * str)) (s : str) :
  subst_all (m1 ++ m2) s = subst_all m2 (subst_all m1 s).
Proof. apply fold_left_app. Qed.

Lemma subst_all_keeps (m : list (str * str)) (c s : str) :
  words_quote_free m = true -> quote_free c = true -> not_a_source c m = true ->
  occurs (quoted c) s -> occurs (quoted c) (subst_all m s).
Proof.
  revert s. induction m as [|[a b] m IH]; intros s Hm Hc Hn H; [exact H|].
  simpl in Hm, Hn. apply andb_true_iff in Hm as [Hab Hm]. apply andb_true_iff in Hab as [Ha Hb].
  apply andb_true_iff in Hn as [Hca Hn]. apply str_eqb_false in Hca.
  rewrite subst_all_cons. apply IH; try assumption.
  apply repl_keeps; assumption.
Qed.

Lemma subst_all_no_new (m : list (str * str)) (c s : str) :
  words_quote_free m = true -> quote_free c = true -> not_a_target c m = true ->
  occurs (quoted c) (subst_all m s) -> occurs (quoted c) s.
Proof.
  revert s. induction m as [|[a b] m IH]; intros s Hm Hc Hn H; [exact H|].
  simpl in Hm, Hn. apply andb_true_iff in Hm as [Hab Hm]. apply andb_true_iff in Hab as [Ha Hb].
  apply andb_true_iff in Hn as [Hcb Hn]. apply str_eqb_false in Hcb.
  rewrite subst_all_cons in H. apply IH in H; try assumption.
  revert H. apply repl_no_new; assumption.
Qed.

Lemma subst_all_no_new_twice (m : list (str * str)) (c s : str) :
  words_quote_free m = true -> quote_free c = true -> not_a_target c m = true ->
  occurs (quoted_twice c) (subst_all m s) -> occurs (quoted_twice c) s.
Proof.
  revert s. induction m as [|[a b] m IH]; intros s Hm Hc Hn H; [exact H|].
  simpl in Hm, Hn. apply andb_true_iff in Hm as [Hab Hm]. apply andb_true_iff in Hab as [Ha Hb].
  apply andb_true_iff in Hn as [Hcb Hn]. apply str_eqb_false in Hcb.
  rewrite subst_all_cons in H. apply IH in H; try assumption.
  revert H. apply repl_no_new_twice; assumption.
Qed.

Lemma words_quote_free_app (m1 m2 : list (str * str)) :
  words_quote_free (m1 ++ m2) = words_quote_free m1 && words_quote_free m2.
Proof. apply forallb_app. Qed.

(** An entry that does not interfere with the others does its work: its
    source word, where present, leaves its target word in the result, and is
    itself gone from the result unless the text had two occurrences sharing a
    quote. *)
Lemma subst_all_entry (m1 : list (str * str)) (e p : str) (m2 : list (str * str)) (s : str) :
  entry_independent m1 e p m2 = true ->
  (occurs (quoted e) s -> occurs (quoted p) (subst_all (m1 ++ (e, p) :: m2) s))
  /\ (~ occurs (quoted_twice e) s -> ~ occurs (quoted e) (subst_all (m1 ++ (e, p) :: m2) s)).
Proof.
  unfold entry_independent. rewrite !andb_true_iff, words_quote_free_app.
  intros [[[[[Hw Hs1] Ht1] Hep] Hs2] Ht2].
  apply andb_true_iff in Hw as [Hw1 Hw2]. simpl in Hw2.
  apply andb_true_iff in Hw2 as [Hq Hw2]. apply andb_true_iff in Hq as [He Hp].
  apply str_eqb_false in Hep.
  rewrite subst_all_app, subst_all_cons. split.
  - intros H. apply subst_all_keeps; try assumption.
    apply str_replace_occurs_new; [apply quoted_nonempty|].
    apply subst_all_keeps; assumption.
  - intros H Ho. apply H.
    apply subst_all_no_new in Ho; try assumption.
    apply repl_removes in Ho; try assumption.
    apply subst_all_no_new_twice in Ho; assumption.
Qed.

(** ** Fenced blocks *)




















(** ** The sanitizer *)

(** C4.  The sanitizer is idempotent: for every string [s], [clean_sql]
    returns a string [r], and [clean_sql] of [r] returns [r] again, so that
    [clean_sql(clean_sql(s)) == clean_sql(s)] and already clean SQL comes
    back unchanged. *)
Theorem clean_sql_idempotent (s : str) :
  exists r, clean_sql (JStr s) = Ret r /\ clean_sql (JStr r) = Ret r.
Proof.
  exists (clean_text s). split; [reflexivity|].
  rewrite clean_sql_str, clean_text_idempotent. reflexivity.
Qed.




(** ** The category translation *)

(** C7, as stated, fails: where two occurrences of ['electronics'] share a
    quote only the first is replaced, and its closing quote completes the
    second again. *)
Lemma category_subst_leaves_electronics :
  contains (quoted (lit "electronics"))
    (category_subst (lit "SELECT 'electronics'electronics'")) = true.
Proof. reflexivity. Qed.

(** C7, amended.  For each of the six entries [(eng, por)] of the
    translation table and every query: if the query contains ['eng'], then
    after the category substitution it contains ['por']; and it no longer
    contains ['eng'], provided the query had no two occurrences of ['eng']
    sharing a quote (['eng'eng']). *)
Theorem category_subst_spec (eng por sql : str) :
  In (eng, por) category_map ->
  (contains (quoted eng) sql = true ->
   contains (quoted por) (category_subst sql) = true)
  /\ (contains (quoted_twice eng) sql = false ->
      contains (quoted eng) (category_subst sql) = false).
Proof.
  intros Hin.
  assert (H : exists m1 m2,
             category_map = m1 ++ (eng, por) :: m2
             /\ entry_independent m1 eng por m2 = true).
  { unfold category_map in Hin. simpl in Hin.
    destruct Hin as [E | [E | [E | [E | [E | [E | []]]]]]]; injection E as <- <-.
    - exists (firstn 0 category_map), (skipn 1 category_map). split; reflexivity.
    - exists (firstn 1 category_map), (skipn 2 category_map). split; reflexivity.
    - exists (firstn 2 category_map), (skipn 3 category_map). split; reflexivity.
    - exists (firstn 3 category_map), (skipn 4 category_map). split; reflexivity.
    - exists (firstn 4 category_map), (skipn 5 category_map). split; reflexivity.
    - exists (firstn 5 category_map), (skipn 6 category_map). split; reflexivity. }
  destruct H as (m1 & m2 & Hm & Hok).
  change (category_subst sql) with (subst_all category_map sql). rewrite Hm.
  destruct (subst_all_entry m1 eng por m2 sql Hok) as [H1 H2].
  rewrite !contains_spec, !contains_false. split; assumption.
Qed.

Lemma category_subst_spec_witness :
  In (lit "electronics", lit "eletronicos") category_map
  /\ contains (quoted (lit "eletronicos"))
       (category_subst (lit "SELECT * FROM olist WHERE product_category_name = 'electronics'"))
     = true
  /\ contains (quoted (lit "electronics"))
       (category_subst (lit "SELECT * FROM olist WHERE product_category_name = 'electronics'"))
     = false.
Proof.
  assert (Hin : In (lit "electronics", lit "eletronicos") category_map)
    by (left; reflexivity).
  split; [exact Hin|].
  destruct (category_subst_spec _ _
              (lit "SELECT * FROM olist WHERE product_category_name = 'electronics'") Hin)
    as [H1 H2].
  split; [apply H1 | apply H2]; reflexivity.
Defined.

(** ** Text that a replacement leaves alone *)

Lemma str_replace_copy (x : ascii) (old' new : str) (c : ascii) (s : str) :
  c <> x ->
  str_replace (x :: old') new (c :: s) = c :: str_replace (x :: old') new s.
Proof.
  intros Hc. apply str_replace_miss.
  destruct (starts_with (x :: old') (c :: s)) eqn:E; [|reflexivity].
  apply starts_with_spec in E as [r Hr]. apply cons_inv in Hr as [Hx _]. congruence.
Qed.

Lemma str_replace_copy_prefix (x : ascii) (old' new u s : str) :
  ~ In x u ->
  str_replace (x :: old') new (u ++ s) = u ++ str_replace (x :: old') new s.
Proof.
  induction u as [|c u IH]; intros Hu; [reflexivity|].
  cbn [app]. rewrite str_replace_copy.
  - f_equal. apply IH. intros H. apply Hu. right. exact H.
  - intros E. apply Hu. left. exact E.
Qed.

(** A text stays where [old] is replaced if no occurrence of [old] can reach
    into it: [old] does not have the first character of the text, and the
    text does not have the first character of [old]. *)
Lemma str_replace_keeps (x : ascii) (old' new : str) (y : ascii) (u' s : str) :
  ~ In y (x :: old') -> ~ In x (y :: u') ->
  occurs (y :: u') s -> occurs (y :: u') (str_replace (x :: old') new s).
Proof.
  intros Hy Hx.
  assert (Hne : x :: old' <> []) by discriminate.
  induction s as [|s IH|c s Hs IH] using (str_replace_ind (x :: old') Hne).
  - intros H. apply occurs_nil in H. discriminate.
  - intros (a & b & H). rewrite str_replace_hit by exact Hne.
    change ((y :: u') ++ b) with (y :: (u' ++ b)) in H.
    apply app_occurrence_head in H as [Hin | (a' & _ & H)]; [contradiction|].
    apply occurs_app_r. apply IH. exists a', b. exact H.
  - intros H. apply occurs_cons in H as [H | H].
    + apply starts_with_spec in H as [r Hr]. rewrite Hr.
      rewrite str_replace_copy_prefix by exact Hx.
      exists [], (str_replace (x :: old') new r). reflexivity.
    + rewrite str_replace_miss by exact Hs.
      apply (occurs_app_r _ [c]). apply IH. exact H.
Qed.

Lemma category_words_no_C (eng por : str) :
  In (eng, por) category_map -> ~ In "C"%char (quoted eng).
Proof.
  unfold category_map. cbn [In].
  intros [E | [E | [E | [E | [E | [E | []]]]]]]; injection E as <- <-;
    cbn; intuition discriminate.
Qed.

(** Each entry of the translation table is independent of the others. *)
Lemma category_map_entry (eng por : str) :
  In (eng, por) category_map ->
  exists m1 m2,
    category_map = m1 ++ (eng, por) :: m2
    /\ entry_independent m1 eng por m2 = true.
Proof.
  unfold category_map. cbn [In].
  intros [E | [E | [E | [E | [E | [E | []]]]]]]; injection E as <- <-.
  - exists (firstn 0 category_map), (skipn 1 category_map). split; reflexivity.
  - exists (firstn 1 category_map), (skipn 2 category_map). split; reflexivity.
  - exists (firstn 2 category_map), (skipn 3 category_map). split; reflexivity.
  - exists (firstn 3 category_map), (skipn 4 category_map). split; reflexivity.
  - exists (firstn 4 category_map), (skipn 5 category_map). split; reflexivity.
  - exists (firstn 5 category_map), (skipn 6 category_map). split; reflexivity.
Qed.

Lemma category_subst_translates (eng por sql : str) :
  In (eng, por) category_map ->
  occurs (quoted eng) sql -> occurs (quoted por) (category_subst sql).
Proof.
  intros Hin. destruct (category_map_entry eng por Hin) as (m1 & m2 & Hm & Hok).
  change (category_subst sql) with (subst_all category_map sql). rewrite Hm.
  apply (subst_all_entry m1 eng por m2 sql Hok).
Qed.

Lemma category_targets_no_C (eng por : str) :
  In (eng, por) category_map -> ~ In "C"%char (quoted por).
Proof.
  unfold category_map. cbn [In].
  intros [E | [E | [E | [E | [E | [E | []]]]]]]; injection E as <- <-;
    cbn; intuition discriminate.
Qed.

(** ** The turn handler *)

Lemma skipn_trace (l evs : list event) : skipn (List.length l) (l ++ evs) = evs.
Proof. rewrite skipn_app, Nat.sub_diag, skipn_all. reflexivity. Qed.

Lemma skipn_trace_nil (l : list event) : skipn (List.length l) l = [].
Proof. apply skipn_all. Qed.

Lemma attach_summary_snoc (v : json) (h : list turn) (t : turn) :
  attach_summary v (h ++ [t]) = Ret (h ++ [mkTurn (user t) (Some v)]).
Proof.
  induction h as [|x h IH]; [reflexivity|].
  simpl app. simpl attach_summary. destruct (h ++ [t]) eqn:E.
  - destruct h; discriminate.
  - rewrite IH. reflexivity.
Qed.

Lemma empty_frame_empty : negb (df_empty empty_frame) = false.
Proof. reflexivity. Qed.

Lemma no_rows_empty (d : DataFrame) : rows d = [] -> negb (df_empty d) = false.
Proof. intros H. unfold df_empty. rewrite H. simpl. rewrite orb_true_r. reflexivity. Qed.

(** The events of a run, once the run is evaluated. *)
Ltac normalize_trace :=
  rewrite <- ?app_assoc; cbn [app];
  first [rewrite skipn_trace | rewrite skipn_trace_nil].

Ltac list_eqs :=
  repeat match goal with
  | H : @eq (list _) [] (_ :: _) |- _ => discriminate H
  | H : @eq (list _) (_ :: _) [] |- _ => discriminate H
  | H : @eq (list _) (_ :: _) (_ :: _) |- _ => injection H as ?; subst
  | H : @eq (_ * _) (_, _) (_, _) |- _ => injection H as ?; subst
  | H : @eq (_ + _) (inl _) (inr _) |- _ => discriminate H
  | H : @eq (_ + _) (inr _) (inl _) |- _ => discriminate H
  | H : @eq (_ + _) (inr _) (inr _) |- _ => injection H as ?; subst
  | H : @eq (_ + _) (inl _) (inl _) |- _ => injection H as ?; subst
  end.

(** The list on the left ends with the events listed on the right. *)
Ltac ends_with :=
  lazymatch goal with
  | |- exists pre, ?l = pre ++ ?suf =>
      first
        [ exists []; reflexivity
        | lazymatch l with
          | ?e :: ?l' =>
              let H := fresh in
              assert (H : exists pre, l' = pre ++ suf) by ends_with;
              let pre' := fresh in
              destruct H as [pre' H]; exists (e :: pre');
              cbn [app]; rewrite <- H; reflexivity
          end ]
  end.

(** Replace a scrutinee by the value an equation of the context gives it. *)
Ltac use_eqs :=
  repeat match goal with
  | H : ?x = _, H' : context [match ?x with _ => _ end] |- _ => rewrite H in H'
  | H : ?x = _ |- context [match ?x with _ => _ end] => rewrite H
  end.

(** Every path through the handler, one goal per path. *)
Ltac all_paths :=
  cbv zeta; unfold_agent; project;
  repeat (split_run; project);
  try match goal with
      | H : negb (df_empty empty_frame) = true |- _ =>
          rewrite empty_frame_empty in H; discriminate H
      end;
  rewrite ?attach_summary_snoc in *;
  repeat match goal with
         | H : Ret _ = Raise _ |- _ => discriminate H
         | H : Ret _ = Ret _ |- _ => injection H as H; subst
         end;
  cbn [user] in *.

Section TurnProperties.

Context {B : Backend}.

(** C1.  In every turn the engine is given at most two queries.  When the
    first one fails, the repair prompt, made of that query and the engine's
    error text, is sent exactly once (after it only the summary prompt may
    follow) and at most one more query is executed.  When the repaired query
    fails too, nothing is retried: the handler shows the error, then the
    message for an empty result, returns normally and leaves the turn without
    a summary. *)
Theorem repair_bound (w : world) (run_btn : bool) (user_query : str) :
  let evs := new_events (turn_handler run_btn user_query) w in
  List.length (executed evs) <= 2
  /\ (forall sql msg more,
        executed evs = (sql, inr msg) :: more ->
        List.length more <= 1
        /\ exists gen rest,
             posted evs = gen :: fix_prompt sql msg :: rest
             /\ List.length rest <= 1
             /\ forall p, In p rest -> exists df, p = explain_prompt df user_query)
  /\ (forall sql msg sql2 msg2,
        executed evs = [(sql, inr msg); (sql2, inr msg2)] ->
        fst (turn_handler run_btn user_query w) = Ret tt
        /\ history (snd (turn_handler run_btn user_query w))
           = history w ++ [mkTurn user_query None]
        /\ exists pre,
             evs = pre ++ [Execute sql2 (inr msg2);
                           StError (lit "Still invalid after correction: " ++ msg2);
                           StWarning (lit "No data returned for this query.")]).
Proof.
  all_paths.
  all: normalize_trace; cbn [executed posted List.length].
  all: split; [lia|]; split; intros; list_eqs.
  all: try (split; [cbn [List.length]; lia|]).
  all: try (do 2 eexists; split; [reflexivity|]; split; [cbn [List.length]; lia|];
            cbn [In]; intros ? [<- | []]; eexists; reflexivity).
  all: try (do 2 eexists; split; [reflexivity|]; split; [cbn [List.length]; lia|];
            cbn [In]; intros ? []).
  all: split; [reflexivity|]; split; [reflexivity|]; ends_with.
Qed.

(** What the three callers of [gemini_call] do with each outcome of the
    request. *)
Lemma generate_sql_run (user_query ht : str) (w : world) :
  let prompt := generate_prompt user_query ht in
  match snd (post (service w) prompt) with
  | NetworkFailure msg =>
      fst (generate_sql user_query ht w) = Raise (mkExn ConnectionError msg)
  | Response _ None =>
      exists e, fst (generate_sql user_query ht w) = Raise e
                /\ exn_cls e = JSONDecodeError
  | Response _ (Some j) =>
      fst (generate_sql user_query ht w) = Ret (reply_sql j)
      /\ new_events (generate_sql user_query ht) w
         = Post prompt
             :: match reply_sql j with
                | Some _ => []
                | None => [StError (lit "Gemini could not generate SQL."); StWrite j]
                end
  end.
Proof.
  cbv zeta. unfold reply_sql. unfold_agent.
  destruct (post (service w) (generate_prompt user_query ht)) as [sv [msg | st [j|]]]; project.
  - reflexivity.
  - repeat (split_run; project); (split; [reflexivity | normalize_trace; reflexivity]).
  - eexists. split; reflexivity.
Qed.

Lemma fix_sql_run (original_sql error_message : str) (w : world) :
  let prompt := fix_prompt original_sql error_message in
  match snd (post (service w) prompt) with
  | NetworkFailure msg =>
      fst (fix_sql original_sql error_message w) = Raise (mkExn ConnectionError msg)
  | Response _ None =>
      exists e, fst (fix_sql original_sql error_message w) = Raise e
                /\ exn_cls e = JSONDecodeError
  | Response _ (Some j) =>
      fst (fix_sql original_sql error_message w)
      = Ret (option_map date_subst (reply_sql j))
      /\ new_events (fix_sql original_sql error_message) w = [Post prompt]
  end.
Proof.
  cbv zeta. unfold reply_sql. unfold_agent.
  destruct (post (service w) (fix_prompt original_sql error_message)) as [sv [msg | st [j|]]]; project.
  - reflexivity.
  - repeat (split_run; project); (split; [reflexivity | normalize_trace; reflexivity]).
  - eexists. split; reflexivity.
Qed.

Lemma explain_results_run (df : DataFrame) (user_query : str) (w : world) :
  let prompt := explain_prompt df user_query in
  match snd (post (service w) prompt) with
  | NetworkFailure msg =>
      fst (explain_results df user_query w) = Raise (mkExn ConnectionError msg)
  | Response _ None =>
      exists e, fst (explain_results df user_query w) = Raise e
                /\ exn_cls e = JSONDecodeError
  | Response _ (Some j) =>
      fst (explain_results df user_query w) = Ret (reply_summary j)
      /\ new_events (explain_results df user_query) w = [Post prompt]
  end.
Proof.
  cbv zeta. unfold reply_summary. unfold_agent.
  destruct (post (service w) (explain_prompt df user_query)) as [sv [msg | st [j|]]]; project.
  - reflexivity.
  - repeat (split_run; project); (split; [reflexivity | normalize_trace; reflexivity]).
  - eexists. split; reflexivity.
Qed.

(** The outcome of a caller of [gemini_call], read off its run lemma. *)
Ltac by_run_lemma L Hp :=
  let H := fresh in
  pose proof L as H; cbv zeta in H; rewrite Hp in H; cbn [snd] in H; exact H.

(** C2, amended.  When the completion service answers with a JSON body,
    whatever the status code and whatever the body holds, none of the three
    callers raises: [generate_sql] returns the sanitized text of the first
    candidate, or [None] after showing "Gemini could not generate SQL." and
    the body; [fix_sql] returns the sanitized, date-substituted text or
    [None]; [explain_results] returns the text or the fallback string.  A
    body that lacks one of candidates / content / parts / text gives [None],
    [None] and the fallback, and the handler then ends the turn normally with
    "Gemini could not generate SQL for that query.".  When the request fails,
    or the body of the response is not JSON, each of the three callers raises
    the exception of [gemini_call]. *)
Theorem completion_service_outcomes (w : world) (sv : Service) :
  (forall status j,
     (forall user_query ht,
        post (service w) (generate_prompt user_query ht) = (sv, Response status (Some j)) ->
        fst (generate_sql user_query ht w) = Ret (reply_sql j)
        /\ (reply_sql j = None ->
            new_events (generate_sql user_query ht) w
            = [Post (generate_prompt user_query ht);
               StError (lit "Gemini could not generate SQL."); StWrite j]))
     /\ (forall original_sql error_message,
           post (service w) (fix_prompt original_sql error_message)
           = (sv, Response status (Some j)) ->
           fst (fix_sql original_sql error_message w)
           = Ret (option_map date_subst (reply_sql j)))
     /\ (forall df user_query,
           post (service w) (explain_prompt df user_query) = (sv, Response status (Some j)) ->
           fst (explain_results df user_query w) = Ret (reply_summary j))
     /\ (forall e, candidate_text j = Raise e ->
           reply_sql j = None /\ reply_summary j = JStr summary_fallback)
     /\ (forall user_query,
           truthy user_query = true ->
           post (service w)
             (generate_prompt user_query
                (history_text (history w ++ [mkTurn user_query None])))
           = (sv, Response status (Some j)) ->
           reply_sql j = None ->
           fst (turn_handler true user_query w) = Ret tt
           /\ exists pre,
                new_events (turn_handler true user_query) w
                = pre ++ [StError (lit "Gemini could not generate SQL."); StWrite j;
                          StWarning (lit "Gemini could not generate SQL for that query.")]))
  /\ (forall msg,
        (forall user_query ht,
           post (service w) (generate_prompt user_query ht) = (sv, NetworkFailure msg) ->
           fst (generate_sql user_query ht w) = Raise (mkExn ConnectionError msg))
        /\ (forall original_sql error_message,
              post (service w) (fix_prompt original_sql error_message)
              = (sv, NetworkFailure msg) ->
              fst (fix_sql original_sql error_message w)
              = Raise (mkExn ConnectionError msg))
        /\ (forall df user_query,
              post (service w) (explain_prompt df user_query) = (sv, NetworkFailure msg) ->
              fst (explain_results df user_query w) = Raise (mkExn ConnectionError msg)))
  /\ (forall status,
        (forall user_query ht,
           post (service w) (generate_prompt user_query ht) = (sv, Response status None) ->
           exists e, fst (generate_sql user_query ht w) = Raise e
                     /\ exn_cls e = JSONDecodeError)
        /\ (forall original_sql error_message,
              post (service w) (fix_prompt original_sql error_message)
              = (sv, Response status None) ->
              exists e, fst (fix_sql original_sql error_message w) = Raise e
                        /\ exn_cls e = JSONDecodeError)
        /\ (forall df user_query,
              post (service w) (explain_prompt df user_query) = (sv, Response status None) ->
              exists e, fst (explain_results df user_query w) = Raise e
                        /\ exn_cls e = JSONDecodeError)).
Proof.
  split; [|split].
  - intros status j. split; [|split; [|split; [|split]]].
    + intros uq ht Hp. pose proof (generate_sql_run uq ht w) as H.
      cbv zeta in H. rewrite Hp in H. cbn [snd] in H. destruct H as [H1 H2].
      split; [exact H1|]. intros Hn. rewrite H2, Hn. reflexivity.
    + intros o e Hp. pose proof (fix_sql_run o e w) as H.
      cbv zeta in H. rewrite Hp in H. cbn [snd] in H. apply H.
    + intros df uq Hp. pose proof (explain_results_run df uq w) as H.
      cbv zeta in H. rewrite Hp in H. cbn [snd] in H. apply H.
    + intros e He. unfold reply_sql, reply_summary. rewrite He. split; reflexivity.
    + intros uq Hq Hp Hn. unfold reply_sql in Hn. revert Hn.
      all_paths; intros Hn; use_eqs; try discriminate.
      all: split; [reflexivity | normalize_trace; ends_with].
  - intros msg. split; [|split].
    + intros uq ht Hp. by_run_lemma (generate_sql_run uq ht w) Hp.
    + intros o e Hp. by_run_lemma (fix_sql_run o e w) Hp.
    + intros df uq Hp. by_run_lemma (explain_results_run df uq w) Hp.
  - intros status. split; [|split].
    + intros uq ht Hp. by_run_lemma (generate_sql_run uq ht w) Hp.
    + intros o e Hp. by_run_lemma (fix_sql_run o e w) Hp.
    + intros df uq Hp. by_run_lemma (explain_results_run df uq w) Hp.
Qed.

Lemma first_execution (q : str) (w : world) :
  hd_error (executed (new_events (execute_with_repair q) w))
  = Some (date_subst q, snd (con_execute (engine w) (date_subst q))).
Proof.
  all_paths; normalize_trace; reflexivity.
Qed.

(** C6, amended.  The first query given to the engine is the query after
    the date substitution.  The substitution puts the literal
    [DATE 'YYYY-MM-DD'] of the maximum timestamp where the first placeholder
    stands and goes on behind it, so a query that contains [CURRENT_DATE]
    contains the literal afterwards; and no [CURRENT_DATE] remains provided
    the query had no placeholder right after the text [CURRENT_]
    ([CURRENT_CURRENT_DATE]). *)
Theorem date_subst_spec (q : str) :
  (contains CURRENT_DATE q = true -> contains date_literal (date_subst q) = true)
  /\ (forall a b, q = a ++ CURRENT_DATE ++ b -> contains CURRENT_DATE a = false ->
        date_subst q = a ++ date_literal ++ date_subst b)
  /\ (contains CURRENT_CURRENT_DATE q = false ->
      contains CURRENT_DATE (date_subst q) = false)
  /\ date_literal = lit "DATE '" ++ isoformat (ts_date max_date) ++ lit "'"
  /\ (forall w, hd_error (executed (new_events (execute_with_repair q) w))
                = Some (date_subst q, snd (con_execute (engine w) (date_subst q)))).
Proof.
  split; [|split; [|split; [|split]]].
  - rewrite !contains_spec. apply str_replace_occurs_new, CURRENT_DATE_nonempty.
  - intros a b -> Ha. apply date_subst_first. apply contains_false. exact Ha.
  - rewrite !contains_false. apply date_subst_no_residue.
  - reflexivity.
  - apply first_execution.
Qed.

(** C10.  In every turn whose first query fails, the second prompt sent is
    the repair prompt built from the query as it was executed, that is the
    sanitized model output [g] after the category translation and after the
    date substitution, and from the engine's error text.  The date
    substitution of the repair step changes the corrected SQL only if that
    SQL contains [CURRENT_DATE]. *)
Theorem repair_prompt_original_sql (w : world) (run_btn : bool) (user_query : str) :
  let evs := new_events (turn_handler run_btn user_query) w in
  (forall sql msg more,
     executed evs = (sql, inr msg) :: more ->
     exists sv status j g,
       post (service w)
         (generate_prompt user_query
            (history_text (history w ++ [mkTurn user_query None])))
       = (sv, Response status (Some j))
       /\ reply_sql j = Some g
       /\ sql = date_subst (category_subst g)
       /\ nth_error (posted evs) 1 = Some (fix_prompt (date_subst (category_subst g)) msg))
  /\ (forall f, date_subst f <> f -> contains CURRENT_DATE f = true).
Proof.
  cbv zeta. split.
  - all_paths.
    all: normalize_trace; cbn [executed posted]; intros; list_eqs.
    all: do 4 eexists; split; [reflexivity|];
         split; [unfold reply_sql; use_eqs; reflexivity|];
         split; reflexivity.
  - intros f Hf. destruct (contains CURRENT_DATE f) eqn:E; [reflexivity|].
    exfalso. apply Hf. apply str_replace_absent; [apply CURRENT_DATE_nonempty|].
    apply contains_false. exact E.
Qed.

(** C8.  In every turn in which a query is executed successfully and
    returns zero rows, the handler returns normally, the last thing it does
    after the execution is to show "No data returned for this query.", no
    table, chart or summary is shown, and the turn stays without a
    summary. *)
Theorem empty_result_skips_display (w : world) (run_btn : bool) (user_query : str)
  (sql : str) (df : DataFrame) :
  let evs := new_events (turn_handler run_btn user_query) w in
  In (sql, inl df) (executed evs) ->
  rows df = [] ->
  fst (turn_handler run_btn user_query w) = Ret tt
  /\ (exists pre, evs = pre ++ [Execute sql (inl df);
                                StWarning (lit "No data returned for this query.")])
  /\ existsb shows_result evs = false
  /\ history (snd (turn_handler run_btn user_query w))
     = history w ++ [mkTurn user_query None].
Proof.
  cbv zeta. intros Hin Hrows. revert Hin.
  all_paths.
  all: normalize_trace; cbn [executed In]; intros Hin.
  all: repeat match goal with H : _ \/ _ |- _ => destruct H end; try contradiction; list_eqs.
  all: try match goal with
           | H : negb (df_empty ?d) = true, H' : rows ?d = [] |- _ =>
               rewrite (no_rows_empty d H') in H; discriminate H
           end.
  all: split; [reflexivity|]; split; [ends_with|]; split; reflexivity.
Qed.

(** The date substitution leaves a quoted word of the translation table
    where it is. *)
Lemma date_subst_keeps_quoted (wd s : str) :
  ~ In "C"%char (quoted wd) ->
  occurs (quoted wd) s -> occurs (quoted wd) (date_subst s).
Proof.
  intros Hw.
  apply (str_replace_keeps "C"%char (lit "URRENT_DATE") date_literal "'"%char
           (wd ++ ["'"%char])).
  - cbn. intuition discriminate.
  - exact Hw.
Qed.


(** C3.  In a turn whose first query fails and whose repair reply carries
    SQL, the engine is given two queries: first the generated SQL after the
    category translation and the date substitution, then the repaired SQL
    after the date substitution alone.  The date substitution puts the
    literal [DATE 'YYYY-MM-DD'] of the maximum timestamp where the first
    [CURRENT_DATE] stands and goes on behind it, and changes nothing in a
    text without [CURRENT_DATE].  No category translation is applied to the
    repaired SQL: each quoted English token of the table that the sanitized
    repair reply contains is still in the query executed, whereas the first
    query executed has the Portuguese token for each English one the
    generated SQL contains. *)
Theorem repaired_sql_substitutions (w : world) (user_query : str)
  (sv1 : Service) (st1 : nat) (j1 : json) (g : str) (en1 : Engine) (msg : str)
  (sv2 : Service) (st2 : nat) (j2 : json) (f : str) :
  truthy user_query = true ->
  post (service w)
    (generate_prompt user_query (history_text (history w ++ [mkTurn user_query None])))
  = (sv1, Response st1 (Some j1)) ->
  reply_sql j1 = Some g ->
  truthy g = true ->
  con_execute (engine w) (date_subst (category_subst g)) = (en1, inr msg) ->
  post sv1 (fix_prompt (date_subst (category_subst g)) msg)
  = (sv2, Response st2 (Some j2)) ->
  reply_sql j2 = Some f ->
  truthy (date_subst f) = true ->
  executed (new_events (turn_handler true user_query) w)
  = [(date_subst (category_subst g), inr msg);
     (date_subst f, snd (con_execute en1 (date_subst f)))]
  /\ (forall q,
        (contains CURRENT_DATE q = false -> date_subst q = q)
        /\ (forall a b, q = a ++ CURRENT_DATE ++ b -> contains CURRENT_DATE a = false ->
              date_subst q = a ++ date_literal ++ date_subst b)
        /\ (contains CURRENT_DATE q = true -> contains date_literal (date_subst q) = true))
  /\ date_literal = lit "DATE '" ++ isoformat (ts_date max_date) ++ lit "'"
  /\ (forall eng por,
        In (eng, por) category_map ->
        contains (quoted eng) f = true ->
        contains (quoted eng) (date_subst f) = true)
  /\ (forall eng por,
        In (eng, por) category_map ->
        contains (quoted eng) g = true ->
        contains (quoted por) (date_subst (category_subst g)) = true).
Proof.
  intros Hq Hp1 Hj1 Hg He1 Hp2 Hj2 Hf.
  split; [|split; [|split; [|split]]].
  - unfold reply_sql in Hj1, Hj2.
    destruct (candidate_text j1) as [v1|] eqn:Hc1; [|discriminate].
    destruct (clean_sql v1) as [g'|] eqn:Hs1; [|discriminate]. injection Hj1 as ->.
    destruct (candidate_text j2) as [v2|] eqn:Hc2; [|discriminate].
    destruct (clean_sql v2) as [f'|] eqn:Hs2; [|discriminate]. injection Hj2 as ->.
    destruct g as [|c g]; [discriminate|].
    destruct (date_subst f) as [|c2 f2] eqn:Hdf; [discriminate|].
    all_paths; normalize_trace; cbn [executed snd]; reflexivity.
  - intros q. split; [|split].
    + intros H. apply str_replace_absent; [apply CURRENT_DATE_nonempty|].
      apply contains_false, H.
    + intros a b -> Ha. apply date_subst_first. apply contains_false, Ha.
    + rewrite !contains_spec. apply str_replace_occurs_new, CURRENT_DATE_nonempty.
  - reflexivity.
  - intros eng por Hin. rewrite !contains_spec.
    apply date_subst_keeps_quoted, (category_words_no_C eng por Hin).
  - intros eng por Hin. rewrite !contains_spec. intros H.
    apply date_subst_keeps_quoted; [exact (category_targets_no_C eng por Hin)|].
    apply (category_subst_translates eng por g Hin H).
Qed.

Lemma turn_handler_history (w : world) (run_btn : bool) (user_query : str) :
  let r := turn_handler run_btn user_query w in
  let evs := new_events (turn_handler run_btn user_query) w in
  if run_btn && truthy user_query then
    exists s,
      history (snd r) = history w ++ [mkTurn user_query s]
      /\ match s with
         | None => True
         | Some v =>
             fst r = Ret tt
             /\ In (StWrite v) evs
             /\ exists sql df, In (sql, inl df) (executed evs) /\ df_empty df = false
         end
  else history (snd r) = history w /\ evs = [].
Proof.
  all_paths.
  all: normalize_trace; cbn [executed user].
  all: try (split; reflexivity).
  all: eexists; (split; [reflexivity|]); try exact I.
  all: split; [reflexivity|]; split; [cbn [In]; tauto|].
  all: do 2 eexists; split; [cbn [In]; eauto|].
  all: apply negb_true_iff; assumption.
Qed.

Lemma sidebar_turns_history (h : list turn) (w : world) :
  history (snd (sidebar_turns h w)) = history w.
Proof.
  revert w. induction h as [|t h IH]; intros w; [reflexivity|].
  cbn [sidebar_turns]. unfold bind, emit, ret. destruct (summary t); cbn; rewrite IH; reflexivity.
Qed.

Lemma script_run_history (run_btn : bool) (user_query : str) (w : world) :
  history (snd (script_run run_btn user_query w))
  = history (snd (turn_handler run_btn user_query w)).
Proof.
  unfold script_run, bind. destruct (turn_handler run_btn user_query w) as [[[]|e] w'];
    [|reflexivity].
  unfold emit, get_history. cbn [fst snd]. rewrite sidebar_turns_history. reflexivity.
Qed.

Lemma session_history (inputs : list (bool * str)) (w : world) :
  exists added,
    history (session inputs w) = history w ++ added
    /\ map user added = submitted inputs.
Proof.
  revert w. induction inputs as [|[b q] inputs IH]; intros w.
  - exists []. rewrite app_nil_r. split; reflexivity.
  - cbn [session]. destruct (IH (snd (script_run b q w))) as (added & Hh & Hu).
    rewrite Hh, script_run_history.
    pose proof (turn_handler_history w b q) as H. cbv zeta in H.
    unfold submitted. cbn [filter fst snd].
    destruct (b && truthy q).
    + destruct H as (s & -> & _). exists (mkTurn q s :: added).
      rewrite <- app_assoc. split; [reflexivity|]. cbn. f_equal. exact Hu.
    + destruct H as [-> _]. exists added. split; [reflexivity | exact Hu].
Qed.

(** C9.  A submitted question (button pressed, text non-empty) appends
    exactly one turn holding the question to the history and leaves the
    earlier turns as they were; the new turn gets a summary only when the
    handler ends normally after a successful execution with a non-empty
    result, and on every other path, an exception included, it stays without
    one; without a submission the history does not change.  Over a whole
    session the history is the initial history followed by one turn per
    submitted question, in the order of submission. *)
Theorem history_append_only (w : world) :
  (forall run_btn user_query,
     let r := turn_handler run_btn user_query w in
     let evs := new_events (turn_handler run_btn user_query) w in
     if run_btn && truthy user_query then
       exists s,
         history (snd r) = history w ++ [mkTurn user_query s]
         /\ match s with
            | None => True
            | Some v =>
                fst r = Ret tt
                /\ In (StWrite v) evs
                /\ exists sql df, In (sql, inl df) (executed evs) /\ df_empty df = false
            end
     else history (snd r) = history w)
  /\ (forall inputs,
        exists added,
          history (session inputs w) = history w ++ added
          /\ map user added = submitted inputs).
Proof.
  split.
  - intros b q. pose proof (turn_handler_history w b q) as H. cbv zeta in *.
    destruct (b && truthy q); [exact H | apply H].
  - intros inputs. apply session_history.
Qed.

End TurnProperties.


(** * Further properties of the script *)

(** ** The sanitizer only deletes *)

Lemma Subseq_refl (s : str) : Subseq s s.
Proof. induction s; constructor; assumption. Qed.

Lemma Subseq_nil_l (s : str) : Subseq [] s.
Proof. induction s; constructor; assumption. Qed.

Lemma Subseq_trans (a b c : str) : Subseq a b -> Subseq b c -> Subseq a c.
Proof.
  intros Hab Hbc. revert a Hab.
  induction Hbc as [|x b c Hbc IH|x b c Hbc IH]; intros a Hab.
  - exact Hab.
  - apply Subseq_skip. apply IH. exact Hab.
  - inversion Hab; subst.
    + apply Subseq_skip. apply IH. assumption.
    + apply Subseq_keep. apply IH. assumption.
Qed.

Lemma Subseq_app (a1 b1 a2 b2 : str) :
  Subseq a1 b1 -> Subseq a2 b2 -> Subseq (a1 ++ a2) (b1 ++ b2).
Proof.
  intros H1 H2. induction H1; simpl; try (constructor; assumption). exact H2.
Qed.

Lemma Subseq_length (a b : str) : Subseq a b -> List.length a <= List.length b.
Proof. induction 1; simpl; lia. Qed.

Lemma Subseq_infix (a s b : str) : Subseq s (a ++ s ++ b).
Proof.
  induction a as [|c a IH]; simpl.
  - induction s as [|c s IH]; simpl; [apply Subseq_nil_l | apply Subseq_keep, IH].
  - apply Subseq_skip, IH.
Qed.

Lemma scan_deletes (f : str -> option nat) (k : nat) (s : str) :
  Subseq (scan f [] k s) s.
Proof.
  revert k. induction s as [|c s IH]; intros k; [constructor|].
  destruct k as [|k]; simpl.
  - destruct (f (c :: s)) as [[|m]|]; simpl.
    + apply Subseq_keep, IH.
    + apply Subseq_skip, IH.
    + apply Subseq_keep, IH.
  - apply Subseq_skip, IH.
Qed.

Lemma strip_deletes (chars s : str) : Subseq (strip chars s) s.
Proof.
  destruct (strip_infix chars s) as (a & b & H & _).
  rewrite H at 2. apply Subseq_infix.
Qed.

Lemma clean_text_deletes (s : str) : Subseq (clean_text s) s.
Proof.
  unfold clean_text.
  eapply Subseq_trans; [apply strip_deletes|].
  eapply Subseq_trans; [apply scan_deletes|]. apply scan_deletes.
Qed.

(** X4.  The sanitizer only deletes: what [clean_sql] returns for a string
    is a subsequence of that string, in the same order, and so never longer;
    it inserts and reorders nothing. *)
Theorem clean_sql_only_deletes (s : str) :
  exists r, clean_sql (JStr s) = Ret r
            /\ Subseq r s
            /\ List.length r <= List.length s.
Proof.
  exists (clean_text s). split; [reflexivity|].
  split; [apply clean_text_deletes | apply Subseq_length, clean_text_deletes].
Qed.

(** ** Text that a replacement cannot produce *)

Lemma str_replace_no_new (old new' : str) (d y : ascii) (u' s : str) :
  old <> [] -> ~ In y (d :: new') -> ~ In d (y :: u') ->
  occurs (y :: u') (str_replace old (d :: new') s) -> occurs (y :: u') s.
Proof.
  intros Hne Hy Hd.
  induction s as [|s IH|c s Hs IH] using (str_replace_ind old Hne).
  - intros H. exact H.
  - rewrite str_replace_hit by exact Hne. intros (a & b & H).
    change ((y :: u') ++ b) with (y :: (u' ++ b)) in H.
    apply app_occurrence_head in H as [Hin | (a' & _ & H)]; [contradiction|].
    apply occurs_app_r. apply IH. exists a', b. exact H.
  - rewrite str_replace_miss by exact Hs. intros H.
    apply occurs_cons in H as [H | H].
    + apply starts_with_spec in H as [r Hr].
      change ((y :: u') ++ r) with (y :: (u' ++ r)) in Hr.
      apply cons_inv in Hr as [-> Hr].
      assert (Hp : starts_with u' (str_replace old (d :: new') s) = true)
        by (rewrite Hr; apply starts_with_app).
      apply str_replace_prefix_back in Hp as (r' & -> & _);
        [| exact Hne | intros Hin; apply Hd; right; exact Hin].
      exists [], r'. reflexivity.
    + apply (occurs_app_r _ [c]). apply IH. exact H.
Qed.

Lemma join_occurs (sep x : str) (l : list str) : In x l -> occurs x (join sep l).
Proof.
  induction l as [|y l IH]; [intros []|].
  intros [-> | Hin].
  - destruct l as [|z l].
    + exists [], []. simpl. rewrite app_nil_r. reflexivity.
    + exists [], (sep ++ join sep (z :: l)). reflexivity.
  - destruct l as [|z l]; [destruct Hin|].
    change (join sep (y :: z :: l)) with (y ++ sep ++ join sep (z :: l)).
    apply occurs_app_r, occurs_app_r. apply IH. exact Hin.
Qed.

Lemma clean_sql_no_fence (v : json) (s : str) :
  clean_sql v = Ret s -> ~ occurs fence s.
Proof.
  destruct v; simpl; intros H; try discriminate; injection H as <-.
  - intros Ho. apply occurs_nil in Ho. discriminate.
  - apply clean_text_no_fence.
Qed.

Lemma subst_all_no_new_fence (m : list (str * str)) (s : str) :
  forallb (fun kv => negb (existsb (ascii_eqb backtick) (quoted (snd kv)))) m = true ->
  occurs fence (subst_all m s) -> occurs fence s.
Proof.
  revert s. induction m as [|[a b] m IH]; intros s Hm H; [exact H|].
  cbn [forallb snd] in Hm. apply andb_true_iff in Hm as [Hb Hm].
  rewrite subst_all_cons in H. apply IH in H; [|exact Hm].
  revert H. unfold fence, quoted.
  apply str_replace_no_new.
  - discriminate.
  - intros Hin. rewrite negb_true_iff in Hb.
    assert (existsb (ascii_eqb backtick) (quoted b) = true); [|congruence].
    apply existsb_exists. exists backtick. split; [exact Hin | apply ascii_eqb_refl].
  - cbn. intuition discriminate.
Qed.

Lemma num_cols_columns (d : DataFrame) (y : str) (l : list str) :
  num_cols d = y :: l -> columns d <> [].
Proof. unfold num_cols. intros H E. rewrite E in H. discriminate. Qed.

Lemma subst_all_absent (m : list (str * str)) (q : str) :
  (forall e p, In (e, p) m -> ~ occurs (quoted e) q) -> subst_all m q = q.
Proof.
  induction m as [|[a b] m IH]; intros H; [reflexivity|].
  rewrite subst_all_cons, str_replace_absent.
  - apply IH. intros e p Hin. apply (H e p). right. exact Hin.
  - apply quoted_nonempty.
  - apply (H a b). left. reflexivity.
Qed.

(** ** The response body *)

(** X9.  The text of a response body is extracted exactly when the body is
    an object whose "candidates" is a non-empty list, whose first candidate
    is an object with an object "content", whose "parts" is a non-empty list,
    and whose first part is an object with a "text"; further candidates and
    parts are ignored, and every other body makes the extraction raise. *)
Theorem candidate_text_shape (j v : json) :
  candidate_text j = Ret v
  <-> exists items cand more_cands content part more_parts,
        j = JObj items
        /\ dict_get (lit "candidates") items = Some (JArr (JObj cand :: more_cands))
        /\ dict_get (lit "content") cand = Some (JObj content)
        /\ dict_get (lit "parts") content = Some (JArr (JObj part :: more_parts))
        /\ dict_get (lit "text") part = Some v.
Proof.
  split.
  - unfold candidate_text, getitem_key, getitem_0.
    destruct j as [| | | | |items]; try (intros H; discriminate H).
    destruct (dict_get (lit "candidates") items) as [v1|] eqn:H1;
      [|intros H; discriminate H].
    destruct v1 as [| | | [|c1 s1] |[|[| | | | |cand] cands]|];
      try (intros H; discriminate H).
    destruct (dict_get (lit "content") cand) as [v2|] eqn:H2;
      [|intros H; discriminate H].
    destruct v2 as [| | | | |content]; try (intros H; discriminate H).
    destruct (dict_get (lit "parts") content) as [v3|] eqn:H3;
      [|intros H; discriminate H].
    destruct v3 as [| | | [|c3 s3] |[|[| | | | |part] parts]|];
      try (intros H; discriminate H).
    destruct (dict_get (lit "text") part) as [t|] eqn:H4;
      [|intros H; discriminate H].
    intros H. injection H as <-.
    exists items, cand, cands, content, part, parts. repeat split; assumption.
  - intros (items & cand & cands & content & part & parts & -> & H1 & H2 & H3 & H4).
    unfold candidate_text, getitem_key, getitem_0.
    rewrite H1, H2, H3, H4. reflexivity.
Qed.

(** ** The replayed conversation *)

Lemma history_text_snoc (h : list turn) (t : turn) :
  history_text (h ++ [t]) = join nl (map (fun x => lit "User: " ++ user x) h).
Proof. unfold history_text. rewrite removelast_last. reflexivity. Qed.

Lemma occurs_app_l (p s u : str) : occurs p s -> occurs p (s ++ u).
Proof.
  intros (a & b & ->). exists a, (b ++ u). rewrite <- !app_assoc. reflexivity.
Qed.

Lemma generate_prompt_parts (user_query ht : str) :
  exists p1 p2 p3,
    generate_prompt user_query ht
    = p1 ++ ht ++ p2 ++ (lit "User: " ++ user_query) ++ p3.
Proof.
  unfold generate_prompt.
  exists (nl ++ lit "You are a data analyst writing SQL for DuckDB (PostgreSQL-like syntax)."
          ++ nl ++ lit "Use CURRENT_DATE and INTERVAL for date arithmetic (e.g., CURRENT_DATE - INTERVAL 6 MONTH)."
          ++ nl ++ lit "Do not use STRFTIME or DATE('now')."
          ++ nl ++ lit "Work on a table called olist with columns " ++ schema ++ lit "."
          ++ nl ++ lit "User conversation so far:"
          ++ nl),
         (nl ++ lit "Now write only the SQL query (no explanations) to answer:" ++ nl),
         (nl ++ lit "SQL:" ++ nl).
  rewrite <- !app_assoc. reflexivity.
Qed.

(** X10.  The conversation replayed in the generation prompt is made of the
    earlier questions, one "User: ..." line each, in order: every earlier
    question is in the prompt, the new question follows, and neither the
    summaries nor the turn just appended change the replayed text. *)
Theorem prompt_replays_earlier_questions (h : list turn) (t : turn) (user_query : str) :
  history_text (h ++ [t]) = join nl (map (fun x => lit "User: " ++ user x) h)
  /\ (forall h' t', map user h' = map user h ->
        history_text (h' ++ [t']) = history_text (h ++ [t]))
  /\ (forall x, In x h ->
        contains (lit "User: " ++ user x)
          (generate_prompt user_query (history_text (h ++ [t]))) = true)
  /\ contains (lit "User: " ++ user_query)
       (generate_prompt user_query (history_text (h ++ [t]))) = true.
Proof.
  destruct (generate_prompt_parts user_query (history_text (h ++ [t])))
    as (p1 & p2 & p3 & Hp).
  split; [apply history_text_snoc|]. split; [|split].
  - intros h' t' Hu. rewrite !history_text_snoc.
    rewrite <- (map_map user (fun q => lit "User: " ++ q)).
    rewrite <- (map_map user (fun q => lit "User: " ++ q) h).
    rewrite Hu. reflexivity.
  - intros x Hx. apply contains_spec. rewrite Hp.
    apply occurs_app_r, occurs_app_l. rewrite history_text_snoc.
    apply join_occurs. apply (in_map (fun y => lit "User: " ++ user y)). exact Hx.
  - apply contains_spec. rewrite Hp.
    exists (p1 ++ history_text (h ++ [t]) ++ p2), p3.
    rewrite <- !app_assoc. reflexivity.
Qed.

Ltac in_list := solve [cbn [In]; repeat first [left; reflexivity | right]].

Ltac no_columns :=
  try (exfalso;
       match goal with
       | H1 : num_cols ?d = _ :: _, H2 : columns ?d = [] |- _ =>
           exact (num_cols_columns d _ _ H1 H2)
       end).

Section ScriptProperties.

Context {B : Backend}.

Lemma date_literal_no_backtick : ~ In backtick date_literal.
Proof.
  unfold date_literal. intros H.
  apply in_app_or in H as [H | H].
  - simpl in H. intuition discriminate.
  - apply in_app_or in H as [H | H].
    + revert H. apply isoformat_no_letter. vm_compute. lia.
    + simpl in H. intuition discriminate.
Qed.

Lemma date_subst_no_new_fence (s : str) :
  occurs fence (date_subst s) -> occurs fence s.
Proof.
  unfold date_subst, fence.
  change date_literal
    with ("D"%char :: (lit "ATE '" ++ isoformat (ts_date max_date) ++ lit "'")).
  apply str_replace_no_new.
  - discriminate.
  - apply date_literal_no_backtick.
  - cbn. intuition discriminate.
Qed.

Lemma category_subst_no_new_fence (s : str) :
  occurs fence (category_subst s) -> occurs fence s.
Proof. apply (subst_all_no_new_fence category_map). reflexivity. Qed.

(** X3.  No query given to the engine, the first one or the repaired one,
    contains a triple backtick: the substitutions applied after the
    sanitizer bring none back. *)
Theorem executed_sql_has_no_fence (w : world) (run_btn : bool) (user_query : str)
  (sql : str) (r : DataFrame + str) :
  In (sql, r) (executed (new_events (turn_handler run_btn user_query) w)) ->
  contains fence sql = false.
Proof.
  intros Hin. apply contains_false. revert Hin.
  all_paths.
  all: normalize_trace; cbn [executed In]; intros Hin.
  all: repeat match goal with H : _ \/ _ |- _ => destruct H end; try contradiction; list_eqs.
  all: try match goal with
           | H : date_subst ?x = ?y |- ~ occurs fence ?y => rewrite <- H
           end.
  all: intros Ho; apply date_subst_no_new_fence in Ho;
       try apply category_subst_no_new_fence in Ho.
  all: match goal with
       | H : clean_sql _ = Ret ?s, Ho : occurs fence ?s |- _ =>
           exact (clean_sql_no_fence _ _ H Ho)
       end.
Qed.

(** X1.  An exception leaves the turn handler from two places only: a
    failed request to the completion service (no answer, or a body that is
    not JSON), and the chart step.  An engine error, a missing key, a bad
    index or a value of the wrong type in a reply never escapes.  In the
    first case the request was the last thing the handler did; in the second
    the exception is what the chart of an executed, non-empty result raised,
    for the first column and the first selected column, and the table was
    the last thing shown.  In both the question is in the history without a
    summary. *)
Theorem turn_handler_raises_from_request_or_chart (w : world) (run_btn : bool)
  (user_query : str) (e : exn) :
  fst (turn_handler run_btn user_query w) = Raise e ->
  let evs := new_events (turn_handler run_btn user_query) w in
  (((exn_cls e = ConnectionError \/ exn_cls e = JSONDecodeError)
    /\ exists p, last evs (Post []) = Post p)
   \/ (exists sql df x y,
         In (sql, inl df) (executed evs)
         /\ df_empty df = false
         /\ hd_error (map fst (columns df)) = Some x
         /\ hd_error (num_cols df) = Some y
         /\ bar_chart df x y = Some e
         /\ last evs (Post []) = StDataframe (df_head 20 df)))
  /\ history (snd (turn_handler run_btn user_query w))
     = history w ++ [mkTurn user_query None].
Proof.
  all_paths.
  all: no_columns.
  all: intros H; try discriminate H; injection H as <-.
  all: normalize_trace; cbn [exn_cls last executed].
  all: split; [|reflexivity].
  all: first
         [ left; split; [auto | eexists; reflexivity]
         | match goal with
           | Hc : bar_chart ?d ?x ?y = Some _,
             Hn : num_cols ?d = _, Hx : columns ?d = _,
             He : negb (df_empty ?d) = true |- _ =>
               right; eexists; exists d, x, y;
               split; [in_list|];
               split; [apply negb_true_iff; exact He|];
               split; [rewrite Hx; reflexivity|];
               split; [rewrite Hn; reflexivity|];
               split; [exact Hc | reflexivity]
           end ].
Qed.

(** X2.  A turn sends at most three prompts to the completion service,
    and the first is the generation prompt, built from the question and the
    earlier questions; a run without a submission does nothing at all. *)
Theorem completion_requests_bound (w : world) (run_btn : bool) (user_query : str) :
  let evs := new_events (turn_handler run_btn user_query) w in
  List.length (posted evs) <= 3
  /\ if run_btn && truthy user_query
     then exists rest,
            posted evs
            = generate_prompt user_query
                (history_text (history w ++ [mkTurn user_query None])) :: rest
     else evs = [].
Proof.
  all_paths.
  all: normalize_trace; cbn [posted List.length].
  all: split; [lia|]; first [reflexivity | eexists; reflexivity].
Qed.

(** X7.  When the reply sanitizes to the empty string, the engine is not
    called and no repair is tried: the handler only shows "Gemini could not
    generate SQL for that query." and returns, the turn staying in the
    history without a summary. *)
Theorem empty_sql_is_not_executed (w : world) (user_query : str)
  (sv : Service) (status : nat) (j : json) :
  truthy user_query = true ->
  post (service w)
    (generate_prompt user_query (history_text (history w ++ [mkTurn user_query None])))
  = (sv, Response status (Some j)) ->
  reply_sql j = Some [] ->
  fst (turn_handler true user_query w) = Ret tt
  /\ new_events (turn_handler true user_query) w
     = [StSpinner (lit "Generating SQL...");
        Post (generate_prompt user_query
                (history_text (history w ++ [mkTurn user_query None])));
        StWarning (lit "Gemini could not generate SQL for that query.")]
  /\ history (snd (turn_handler true user_query w))
     = history w ++ [mkTurn user_query None].
Proof.
  intros Hq Hp Hn. unfold reply_sql in Hn. revert Hn.
  all_paths; intros Hn; use_eqs; try discriminate; list_eqs.
  all: try (injection Hn as Hn; discriminate Hn).
  all: split; [reflexivity|]; split; [normalize_trace; reflexivity | reflexivity].
Qed.

(** X8.  When the first query fails and the handler returns normally
    without a second execution, that is when the repair reply carries no SQL,
    the last two things it does are the repair request and the message "No
    data returned for this query."; the turn stays without a summary. *)
Theorem repair_without_sql_ends_quietly (w : world) (run_btn : bool)
  (user_query sql msg : str) :
  let evs := new_events (turn_handler run_btn user_query) w in
  executed evs = [(sql, inr msg)] ->
  fst (turn_handler run_btn user_query w) = Ret tt ->
  (exists pre, evs = pre ++ [Post (fix_prompt sql msg);
                             StWarning (lit "No data returned for this query.")])
  /\ history (snd (turn_handler run_btn user_query w))
     = history w ++ [mkTurn user_query None].
Proof.
  cbv zeta. intros He Hr. revert He Hr.
  all_paths.
  all: normalize_trace; cbn [executed]; intros He Hr; list_eqs; try discriminate Hr.
  all: split; [ends_with | reflexivity].
Qed.

(** X12.  For a query that returns a non-empty result the handler shows
    the first 20 rows at most.  When [select_dtypes] selects a column, the
    chart step is run for the first column and the first selected column:
    the chart is shown when the step succeeds, and when it raises the
    exception leaves the handler and no chart is shown.  When no column is
    selected no chart is shown either. *)
Theorem result_display_rule (w : world) (run_btn : bool) (user_query : str)
  (sql : str) (df : DataFrame) :
  let evs := new_events (turn_handler run_btn user_query) w in
  In (sql, inl df) (executed evs) ->
  df_empty df = false ->
  In (StDataframe (df_head 20 df)) evs
  /\ List.length (rows (df_head 20 df)) <= 20
  /\ match num_cols df, columns df with
     | y :: _, (x, _) :: _ =>
         match bar_chart df x y with
         | None => In (StPlotlyChart x y) evs
         | Some e =>
             fst (turn_handler run_btn user_query w) = Raise e
             /\ forall x' y', ~ In (StPlotlyChart x' y') evs
         end
     | _, _ => forall x y, ~ In (StPlotlyChart x y) evs
     end.
Proof.
  cbv zeta. intros Hin He. revert Hin.
  all_paths.
  all: no_columns.
  all: normalize_trace; cbn [executed In]; intros Hin.
  all: repeat match goal with H : _ \/ _ |- _ => destruct H end; try contradiction; list_eqs.
  all: try match goal with
           | H : negb (df_empty ?d) = false, H' : df_empty ?d = false |- _ =>
               rewrite H' in H; discriminate H
           end.
  all: try (exfalso; congruence).
  all: repeat match goal with
              | H1 : ?x = ?a, H2 : ?x = ?b |- _ =>
                  let E := fresh in
                  assert (E : a = b) by (rewrite <- H1; exact H2); clear H2; list_eqs
              end.
  all: repeat match goal with
              | H : Some _ = Some _ |- _ => injection H as ?; subst
              | H : Some _ = None |- _ => discriminate H
              | H : None = Some _ |- _ => discriminate H
              end.
  all: use_eqs.
  all: split; [in_list|]; split; [apply firstn_le_length|].
  all: cbv beta iota.
  all: try in_list.
  all: try (split; [reflexivity|]).
  all: intros x y Hc; cbn [In] in Hc;
       repeat match goal with H : _ \/ _ |- _ => destruct H end;
       first [congruence | contradiction].
Qed.

(** X13.  Every error text the engine reports in a turn is shown to the
    user, in the warning "SQL failed: ..." or in the error "Still invalid
    after correction: ...". *)
Theorem engine_errors_are_shown (w : world) (run_btn : bool) (user_query : str)
  (sql msg : str) :
  let evs := new_events (turn_handler run_btn user_query) w in
  In (sql, inr msg) (executed evs) ->
  In (StWarning (lit "SQL failed: " ++ msg)) evs
  \/ In (StError (lit "Still invalid after correction: " ++ msg)) evs.
Proof.
  cbv zeta. intros Hin. revert Hin.
  all_paths.
  all: normalize_trace; cbn [executed In]; intros Hin.
  all: repeat match goal with H : _ \/ _ |- _ => destruct H end; try contradiction; list_eqs.
  all: first [left; in_list | right; in_list].
Qed.

(** X14.  When a query returns a non-empty result and the handler returns
    normally, the turn gets a summary: what [explain_results] drew from the
    response to the summary prompt (the text, or the fallback string when
    the body has none), which is also the last thing shown. *)
Theorem summary_attached_on_success (w : world) (run_btn : bool) (user_query : str)
  (sql : str) (df : DataFrame) :
  let evs := new_events (turn_handler run_btn user_query) w in
  In (sql, inl df) (executed evs) ->
  df_empty df = false ->
  fst (turn_handler run_btn user_query w) = Ret tt ->
  exists sv sv' status j,
    post sv (explain_prompt df user_query) = (sv', Response status (Some j))
    /\ history (snd (turn_handler run_btn user_query w))
       = history w ++ [mkTurn user_query (Some (reply_summary j))]
    /\ exists pre,
         evs = pre ++ [Post (explain_prompt df user_query);
                       StWrite (JStr (lit "**Insight Summary:**"));
                       StWrite (reply_summary j)].
Proof.
  cbv zeta. intros Hin He Hr. revert Hin Hr.
  all_paths.
  all: normalize_trace; cbn [executed In]; intros Hin Hr; try discriminate Hr.
  all: repeat match goal with H : _ \/ _ |- _ => destruct H end; try contradiction; list_eqs.
  all: try match goal with
           | H : negb (df_empty ?d) = false, H' : df_empty ?d = false |- _ =>
               rewrite H' in H; discriminate H
           end.
  all: match goal with
       | H : post ?sv (explain_prompt _ _) = (?sv', Response ?st (Some ?j)) |- _ =>
           exists sv, sv', st, j; split; [exact H|]
       end.
  all: unfold reply_summary; use_eqs; split; [reflexivity | ends_with].
Qed.

(** X5.  A query that contains none of the six quoted English category
    tokens and no [CURRENT_DATE] is given to the engine exactly as the
    sanitizer left it. *)
Theorem untouched_query_runs_verbatim (q : str) :
  (forall eng por, In (eng, por) category_map -> contains (quoted eng) q = false) ->
  contains CURRENT_DATE q = false ->
  date_subst (category_subst q) = q
  /\ forall w, hd_error (executed (new_events (execute_with_repair (category_subst q)) w))
               = Some (q, snd (con_execute (engine w) q)).
Proof.
  intros Hc Hd.
  assert (E1 : category_subst q = q).
  { apply (subst_all_absent category_map). intros e p Hin.
    apply contains_false. apply (Hc e p Hin). }
  assert (E2 : date_subst q = q).
  { apply str_replace_absent; [apply CURRENT_DATE_nonempty | apply contains_false, Hd]. }
  split.
  - rewrite E1. exact E2.
  - intros w. rewrite first_execution, E1, E2. reflexivity.
Qed.

(** X6.  Substituting the date a second time changes nothing, for a query
    without [CURRENT_CURRENT_DATE]: a query that has been through the
    substitution of the first attempt passes unchanged through that of the
    repair step. *)
Theorem date_subst_idempotent (q : str) :
  contains CURRENT_CURRENT_DATE q = false ->
  date_subst (date_subst q) = date_subst q.
Proof.
  intros H. apply str_replace_absent; [apply CURRENT_DATE_nonempty|].
  apply date_subst_no_residue. apply contains_false. exact H.
Qed.

Lemma turn_handler_trace (w : world) (run_btn : bool) (user_query : str) :
  exists evs, trace (snd (turn_handler run_btn user_query w)) = trace w ++ evs.
Proof.
  all_paths; rewrite <- ?app_assoc; cbn [app];
    first [eexists; reflexivity | exists []; rewrite app_nil_r; reflexivity].
Qed.

Lemma sidebar_turns_run (h : list turn) (w : world) :
  sidebar_turns h w
  = (Ret tt, mkWorld (history w) (service w) (engine w) (trace w ++ sidebar_events h)).
Proof.
  revert w. induction h as [|t h IH]; intros w.
  - cbn. rewrite app_nil_r. destruct w; reflexivity.
  - cbn [sidebar_turns sidebar_events flat_map]. unfold bind, emit, ret.
    destruct (summary t); rewrite IH; cbn [history service engine trace];
      rewrite <- !app_assoc; reflexivity.
Qed.

(** X11.  After a handler that returns normally the script shows the
    sidebar: the header, then for every turn of the history, the new one
    included and in order, its question and, where it has one, its summary.
    After a handler that raises, the run ends there and no sidebar is
    shown. *)
Theorem script_run_sidebar (w : world) (run_btn : bool) (user_query : str) :
  match fst (turn_handler run_btn user_query w) with
  | Ret _ =>
      fst (script_run run_btn user_query w) = Ret tt
      /\ new_events (script_run run_btn user_query) w
         = new_events (turn_handler run_btn user_query) w
           ++ SidebarHeader (lit "Conversation History")
              :: sidebar_events (history (snd (turn_handler run_btn user_query w)))
      /\ history (snd (script_run run_btn user_query w))
         = history (snd (turn_handler run_btn user_query w))
  | Raise e =>
      script_run run_btn user_query w = (Raise e, snd (turn_handler run_btn user_query w))
  end.
Proof.
  pose proof (turn_handler_trace w run_btn user_query) as (evs & Ht).
  unfold script_run, bind, new_events.
  destruct (turn_handler run_btn user_query w) as [[[]|e] w'] eqn:Hr;
    cbn [fst snd] in *; [|reflexivity].
  unfold emit, get_history. cbn [fst snd history service engine trace].
  rewrite sidebar_turns_run. cbn [fst snd history service engine trace].
  rewrite Ht, <- !app_assoc, !skipn_trace. cbn [app].
  split; [reflexivity|]. split; reflexivity.
Qed.

End ScriptProperties.

(** ** The properties on the scripted backend *)

#[local] Existing Instance scripted.

Lemma repair_bound_witness :
  executed (new_events (turn_handler true q_top5) world_double_failure)
  = [(date_subst (category_subst (lit generated_sql)), inr binder_error);
     (lit "SELECT sales FROM olist", inr binder_error)]
  /\ fst (turn_handler true q_top5 world_double_failure) = Ret tt
  /\ history (snd (turn_handler true q_top5 world_double_failure))
     = [mkTurn q_top5 None].
Proof.
  assert (H : executed (new_events (turn_handler true q_top5) world_double_failure)
              = [(date_subst (category_subst (lit generated_sql)), inr binder_error);
                 (lit "SELECT sales FROM olist", inr binder_error)])
    by (vm_compute; reflexivity).
  split; [exact H|].
  destruct (@repair_bound scripted world_double_failure true q_top5) as (_ & _ & H3).
  destruct (H3 _ _ _ _ H) as (H4 & H5 & _).
  split; [exact H4 | exact H5].
Defined.

(** C2, as stated, fails: when the service cannot be reached, or answers
    with a body that is not JSON, [generate_sql] raises, and the exception
    leaves the turn handler. *)
Lemma generate_sql_raises_without_json :
  fst (generate_sql q_top5 [] world_offline)
  = Raise (mkExn ConnectionError (lit "Connection refused"))
  /\ fst (turn_handler true q_top5 world_offline)
     = Raise (mkExn ConnectionError (lit "Connection refused"))
  /\ fst (generate_sql q_top5 [] world_bad_gateway)
     = Raise (mkExn JSONDecodeError (lit "Expecting value"))
  /\ fst (turn_handler true q_top5 world_bad_gateway)
     = Raise (mkExn JSONDecodeError (lit "Expecting value")).
Proof. repeat split; vm_compute; reflexivity. Qed.

Lemma completion_service_outcomes_witness :
  fst (turn_handler true q_top5 world_quota) = Ret tt
  /\ fst (generate_sql q_top5 (history_text [mkTurn q_top5 None]) world_quota) = Ret None
  /\ fst (generate_sql q_top5 [] world_offline)
     = Raise (mkExn ConnectionError (lit "Connection refused")).
Proof.
  destruct (@completion_service_outcomes scripted world_quota []) as (H & _ & _).
  destruct (H 429 quota_body) as (H1 & _ & _ & _ & H5).
  destruct (@completion_service_outcomes scripted world_offline []) as (_ & Hn & _).
  destruct (Hn (lit "Connection refused")) as (Hg & _ & _).
  split; [|split].
  - apply (H5 q_top5); vm_compute; reflexivity.
  - destruct (H1 q_top5 (history_text [mkTurn q_top5 None])) as [Hr _];
      [vm_compute; reflexivity|].
    rewrite Hr. vm_compute. reflexivity.
  - apply Hg. vm_compute. reflexivity.
Defined.

Lemma repaired_sql_substitutions_witness :
  executed (new_events (turn_handler true q_top5) world_repaired)
  = [(lit "SELECT product_category_name, SUM(sales) FROM olist WHERE product_category_name = 'eletronicos' AND order_purchase_timestamp > DATE '2018-09-03' - INTERVAL 1 YEAR GROUP BY 1",
      inr binder_error);
     (lit "SELECT product_category_name, SUM(price) FROM olist WHERE product_category_name = 'electronics' AND order_purchase_timestamp > DATE '2018-09-03' - INTERVAL 1 YEAR GROUP BY 1",
      inl sales_frame)]
  /\ contains (quoted (lit "electronics")) (date_subst repaired_sql) = true
  /\ contains (quoted (lit "eletronicos"))
       (date_subst (category_subst (lit generated_sql))) = true
  /\ contains date_literal (date_subst repaired_sql) = true.
Proof.
  destruct (@repaired_sql_substitutions scripted world_repaired q_top5
              [repair_reply; answer "Electronics lead the sales."] 200
              (completion (JStr (lit generated_sql))) (lit generated_sql)
              [inl sales_frame] binder_error
              [answer "Electronics lead the sales."] 200
              (completion (JStr (lit "```sql" ++ nl ++ repaired_sql ++ nl ++ lit "```")))
              repaired_sql) as (H1 & H2 & _ & H3 & H4); try (vm_compute; reflexivity).
  split; [rewrite H1; vm_compute; reflexivity|]. split; [|split].
  - apply (H3 (lit "electronics") (lit "eletronicos")).
    + left. reflexivity.
    + vm_compute. reflexivity.
  - apply (H4 (lit "electronics") (lit "eletronicos")).
    + left. reflexivity.
    + vm_compute. reflexivity.
  - destruct (H2 repaired_sql) as (_ & _ & H5). apply H5. vm_compute. reflexivity.
Defined.

(** C6, as stated, fails: the date substitution turns
    [CURRENT_CURRENT_DATE] into [CURRENT_DATE '2018-09-03'], and the query
    given to the engine still contains the placeholder. *)
Lemma placeholder_left_in_executed_query :
  executed (new_events (turn_handler true q_top5) world_placeholder)
  = [(lit "SELECT CURRENT_DATE '2018-09-03'", inl no_rows_frame)]
  /\ contains CURRENT_DATE (lit "SELECT CURRENT_DATE '2018-09-03'") = true.
Proof. split; vm_compute; reflexivity. Qed.

Lemma date_subst_spec_witness :
  contains (lit "DATE '2018-09-03'") (@date_subst scripted (lit generated_sql)) = true
  /\ contains CURRENT_DATE (@date_subst scripted (lit generated_sql)) = false.
Proof.
  destruct (@date_subst_spec scripted (lit generated_sql)) as (H1 & _ & H3 & _).
  split; [apply H1 | apply H3]; vm_compute; reflexivity.
Defined.

Lemma empty_result_skips_display_witness :
  fst (turn_handler true q_top5 world_no_rows) = Ret tt
  /\ existsb shows_result (new_events (turn_handler true q_top5) world_no_rows) = false
  /\ history (snd (turn_handler true q_top5 world_no_rows)) = [mkTurn q_top5 None].
Proof.
  destruct (@empty_result_skips_display scripted world_no_rows true q_top5
              (lit "SELECT * FROM olist WHERE price < 0") no_rows_frame)
    as (H1 & _ & H3 & H4).
  - vm_compute. left. reflexivity.
  - reflexivity.
  - split; [exact H1|]. split; [exact H3 | exact H4].
Defined.

Lemma repair_prompt_original_sql_witness :
  nth_error (posted (new_events (turn_handler true q_top5) world_repaired)) 1
  = Some (fix_prompt (date_subst (category_subst (lit generated_sql))) binder_error)
  /\ contains (quoted (lit "eletronicos"))
       (fix_prompt (date_subst (category_subst (lit generated_sql))) binder_error) = true
  /\ contains (lit "DATE '2018-09-03'")
       (fix_prompt (date_subst (category_subst (lit generated_sql))) binder_error) = true.
Proof.
  destruct (@repair_prompt_original_sql scripted world_repaired true q_top5) as [H _].
  destruct (H (date_subst (category_subst (lit generated_sql))) binder_error
              [(date_subst repaired_sql, inl sales_frame)])
    as (sv & st & j & g & Hp & Hj & Hg & Hn); [vm_compute; reflexivity|].
  split; [|split; vm_compute; reflexivity].
  rewrite Hn, <- Hg. reflexivity.
Defined.

Lemma history_append_only_witness :
  map user
    (history
       (session [(true, q_top5); (false, lit "draft"); (true, []); (true, lit "And by state?")]
          world_repaired))
  = [q_top5; lit "And by state?"].
Proof.
  destruct (@history_append_only scripted world_repaired) as [_ H].
  destruct (H [(true, q_top5); (false, lit "draft"); (true, []); (true, lit "And by state?")])
    as (added & Hh & Hu).
  rewrite Hh. change (history world_repaired) with (@nil turn). cbn [app].
  rewrite Hu. vm_compute. reflexivity.
Defined.

(** ** The further properties on the scripted backend *)

Lemma turn_handler_raises_from_request_or_chart_witness :
  fst (turn_handler true q_top5 world_timedelta) = Raise timedelta_error
  /\ history (snd (turn_handler true q_top5 world_timedelta)) = [mkTurn q_top5 None].
Proof.
  assert (H : fst (turn_handler true q_top5 world_timedelta) = Raise timedelta_error)
    by (vm_compute; reflexivity).
  split; [exact H|].
  destruct (@turn_handler_raises_from_request_or_chart scripted world_timedelta true
              q_top5 timedelta_error H) as [_ Hh].
  exact Hh.
Defined.

Lemma executed_sql_has_no_fence_witness :
  contains fence (date_subst repaired_sql) = false.
Proof.
  apply (@executed_sql_has_no_fence scripted world_repaired true q_top5
           (date_subst repaired_sql) (inl sales_frame)).
  vm_compute. right. left. reflexivity.
Defined.

Lemma untouched_query_runs_verbatim_witness :
  date_subst (category_subst plain_sql) = plain_sql.
Proof.
  destruct (untouched_query_runs_verbatim plain_sql) as [H _].
  - intros eng por Hin. unfold category_map in Hin. cbn [In] in Hin.
    repeat destruct Hin as [Hin|Hin]; try contradiction;
      injection Hin as <- <-; vm_compute; reflexivity.
  - vm_compute. reflexivity.
  - exact H.
Defined.

Lemma date_subst_idempotent_witness :
  date_subst (date_subst (lit generated_sql)) = date_subst (lit generated_sql).
Proof.
  apply (date_subst_idempotent (lit generated_sql)). vm_compute. reflexivity.
Defined.

Lemma empty_sql_is_not_executed_witness :
  executed (new_events (turn_handler true q_top5) world_blank_reply) = []
  /\ history (snd (turn_handler true q_top5 world_blank_reply)) = [mkTurn q_top5 None].
Proof.
  destruct (@empty_sql_is_not_executed scripted world_blank_reply q_top5 [] 200
              (completion (JStr (lit "```sql"))))
    as (_ & Ht & Hh); [vm_compute; reflexivity ..|].
  split; [rewrite Ht; reflexivity | exact Hh].
Defined.

Lemma repair_without_sql_ends_quietly_witness :
  history (snd (turn_handler true q_top5 world_repair_refused)) = [mkTurn q_top5 None].
Proof.
  destruct (@repair_without_sql_ends_quietly scripted world_repair_refused true q_top5
              (date_subst (category_subst (lit generated_sql))) binder_error)
    as (_ & H); [vm_compute; reflexivity ..|].
  exact H.
Defined.

Lemma result_display_rule_witness :
  In (StPlotlyChart (lit "category") (lit "sales"))
     (new_events (turn_handler true q_top5) world_repaired).
Proof.
  destruct (@result_display_rule scripted world_repaired true q_top5
              (date_subst repaired_sql) sales_frame)
    as (_ & _ & H).
  - vm_compute. right. left. reflexivity.
  - vm_compute. reflexivity.
  - let T := type of H in let N := eval vm_compute in T in
    assert (K : N) by (vm_compute in H; exact H).
    vm_compute. exact K.
Defined.

Lemma engine_errors_are_shown_witness :
  In (StWarning (lit "SQL failed: " ++ binder_error))
     (new_events (turn_handler true q_top5) world_double_failure)
  \/ In (StError (lit "Still invalid after correction: " ++ binder_error))
        (new_events (turn_handler true q_top5) world_double_failure).
Proof.
  apply (@engine_errors_are_shown scripted world_double_failure true q_top5
           (lit "SELECT sales FROM olist") binder_error).
  vm_compute. right. left. reflexivity.
Defined.

Lemma summary_attached_on_success_witness :
  exists j, history (snd (turn_handler true q_top5 world_repaired))
            = [mkTurn q_top5 (Some (reply_summary j))].
Proof.
  destruct (@summary_attached_on_success scripted world_repaired true q_top5
              (date_subst repaired_sql) sales_frame)
    as (_ & _ & _ & j & _ & H & _).
  - vm_compute. right. left. reflexivity.
  - vm_compute. reflexivity.
  - vm_compute. reflexivity.
  - exists j. exact H.
Defined.
